(** * Language-feature request dispatch of the Vue language server

    A shallow embedding of
    [packages/vue-language-server/src/features/languageFeatures.ts]:
    the [register] function installs one handler per protocol request on
    the connection; every handler locates the language service that owns
    the request's document and forwards the request to it.

    Asynchronous code is embedded in an error monad: a promise either
    fulfils with a value or rejects with a reason, and [await] is the
    bind of that monad.  JavaScript runs one task at a time, so a handler
    is a function of the answers of its collaborators (the project
    registry, the language services, the client). *)

From Stdlib Require Import ZArith String Ascii.
From stdpp Require Import base option list gmap sets strings sorting pretty.

Set Default Proof Using "Type".

Open Scope string_scope.
Open Scope list_scope.

(** ** JavaScript values and promises *)

(** A settled promise (or the completion of an [async] function). *)
Inductive outcome (A : Type) : Type :=
| Fulfilled (a : A)
| Rejected (reason : string).
Arguments Fulfilled {A} a.
Arguments Rejected {A} reason.

Definition await {A B} (p : outcome A) (k : A → outcome B) : outcome B :=
  match p with
  | Fulfilled a => k a
  | Rejected e => Rejected e
  end.

Notation "x ← 'await' p ; k" := (await p (fun x => k))
  (at level 20, p at level 100, k at level 200, right associativity,
   format "x  ←  'await'  p ;  '/' k").

(** A typed value that may also be [undefined] or [null]. *)
Inductive nullable (A : Type) : Type :=
| undefined
| null
| val (a : A).
Arguments undefined {A}.
Arguments null {A}.
Arguments val {A} a.

(** [x ?? d] *)
Definition coalesce {A} (x : nullable A) (d : A) : A :=
  match x with
  | val a => a
  | _ => d
  end.

(** Untyped values, for the free-form [data] field of protocol items.
    An object is the list of its own properties in insertion order; an
    array is an object whose keys are its indices and ["length"]. *)
#[warnings="-register-all"]
Inductive jsval : Type :=
| JUndefined
| JNull
| JBool (b : bool)
| JNum (n : Z)
| JStr (s : string)
| JObj (props : list (string * jsval)).

Definition typeof (v : jsval) : string :=
  match v with
  | JUndefined => "undefined"
  | JNull => "object"
  | JBool _ => "boolean"
  | JNum _ => "number"
  | JStr _ => "string"
  | JObj _ => "object"
  end.

(** [!v] is [true] on the falsy values. *)
Definition falsy (v : jsval) : bool :=
  match v with
  | JUndefined | JNull => true
  | JBool b => negb b
  | JNum n => (n =? 0)%Z
  | JStr s => String.eqb s ""
  | JObj _ => false
  end.

Definition truthy (v : jsval) : bool := negb (falsy v).

Fixpoint lookup_prop (key : string) (props : list (string * jsval)) : jsval :=
  match props with
  | [] => JUndefined
  | (k, v) :: rest => if String.eqb k key then v else lookup_prop key rest
  end.

Fixpoint assign_prop (key : string) (x : jsval) (props : list (string * jsval))
  : list (string * jsval) :=
  match props with
  | [] => [(key, x)]
  | (k, v) :: rest =>
      if String.eqb k key then (k, x) :: rest
      else (k, v) :: assign_prop key x rest
  end.

(** [v?.key]: [undefined] on [undefined] and [null]; a primitive has no
    own property of the names used here. *)
Definition opt_get_prop (v : jsval) (key : string) : jsval :=
  match v with
  | JObj props => lookup_prop key props
  | _ => JUndefined
  end.

(** [v.key = x], the object updated in place.  Assigning on [undefined]
    or [null] throws; so does assigning on a primitive in strict mode. *)
Definition set_prop (v : jsval) (key : string) (x : jsval) : outcome jsval :=
  match v with
  | JObj props => Fulfilled (JObj (assign_prop key x props))
  | _ => Rejected "TypeError"
  end.

(** [v ?? d] on untyped values. *)
Definition jcoalesce (v d : jsval) : jsval :=
  match v with
  | JUndefined | JNull => d
  | _ => v
  end.

Fixpoint index_props (i : nat) (l : list jsval) : list (string * jsval) :=
  match l with
  | [] => []
  | x :: rest => (pretty i, x) :: index_props (S i) rest
  end.

Definition js_array (l : list jsval) : jsval :=
  JObj (index_props 0 l ++ [("length", JNum (Z.of_nat (length l)))]).

(** ** Semantic tokens: [buildTokens] *)

(** [vue.SemanticToken]: line, start character, length, token type,
    token modifiers. *)
Definition SemanticToken : Type := Z * Z * Z * Z * Z.

Definition tok_line (t : SemanticToken) : Z := let '(l, _, _, _, _) := t in l.
Definition tok_char (t : SemanticToken) : Z := let '(_, c, _, _, _) := t in c.

(** The position of a token. *)
Definition token_key (t : SemanticToken) : Z * Z := (tok_line t, tok_char t).

(** The comparator handed to [sort]:
    [(a, b) => a[0] - b[0] === 0 ? a[1] - b[1] : a[0] - b[0]]. *)
Definition compareTokens (a b : SemanticToken) : Z :=
  if (tok_line a - tok_line b =? 0)%Z
  then (tok_char a - tok_char b)%Z
  else (tok_line a - tok_line b)%Z.

(** [Array.prototype.sort] with a comparator: the stable sort, written
    as an insertion sort.  An element goes before the first element of
    the sorted rest that it does not exceed, so elements that compare
    equal keep their order. *)
Fixpoint sort_insert {A} (cmp : A → A → Z) (x : A) (l : list A) : list A :=
  match l with
  | [] => [x]
  | y :: rest =>
      if (cmp x y <=? 0)%Z then x :: y :: rest
      else y :: sort_insert cmp x rest
  end.

Definition array_sort {A} (cmp : A → A → Z) (l : list A) : list A :=
  foldr (sort_insert cmp) [] l.

(** Modelled from the spec: the protocol's token builder
    ([vscode.SemanticTokensBuilder], a library class) encodes each pushed
    tuple relative to the previous one: line delta, column delta or the
    absolute column on a new line, then length, type and modifiers.  The
    first tuple is pushed as it is.  The result identifier that the
    library stamps on the built object is not part of the encoding and is
    left out. *)
Record SemanticTokensBuilder : Type := {
  _prevLine : Z;
  _prevChar : Z;
  _data : list Z;
}.

Definition new_SemanticTokensBuilder : SemanticTokensBuilder :=
  {| _prevLine := 0; _prevChar := 0; _data := [] |}.

Definition push (b : SemanticTokensBuilder) (t : SemanticToken)
  : SemanticTokensBuilder :=
  let '(line, char, len, tokenType, tokenModifiers) := t in
  let started := negb (length (_data b) =? 0)%nat in
  let pushLine := if started then (line - _prevLine b)%Z else line in
  let pushChar :=
    if started && (pushLine =? 0)%Z then (char - _prevChar b)%Z else char in
  {| _prevLine := line;
     _prevChar := char;
     _data := _data b ++ [pushLine; pushChar; len; tokenType; tokenModifiers] |}.

Record SemanticTokens : Type := { data : list Z }.

Definition build (b : SemanticTokensBuilder) : SemanticTokens :=
  {| data := _data b |}.

(** [buildTokens]: sort, push every token, build. *)
Definition buildTokens (tokens : list SemanticToken) : SemanticTokens :=
  let builder := new_SemanticTokensBuilder in
  let sortedTokens := array_sort compareTokens tokens in
  build (fold_left push sortedTokens builder).

(** The order and the encoding in the words of the protocol, to compare
    [buildTokens] with. *)
Definition token_le (a b : SemanticToken) : Prop :=
  (tok_line a < tok_line b ∨ (tok_line a = tok_line b ∧ tok_char a ≤ tok_char b))%Z.

Definition delta_entry (prev t : SemanticToken) : list Z :=
  let '(line, char, len, tokenType, tokenModifiers) := t in
  [ (line - tok_line prev)%Z;
    (if (line =? tok_line prev)%Z then char - tok_char prev else char)%Z;
    len; tokenType; tokenModifiers ].

Fixpoint delta_from (prev : SemanticToken) (ts : list SemanticToken) : list Z :=
  match ts with
  | [] => []
  | t :: rest => delta_entry prev t ++ delta_from t rest
  end.

Definition delta_encode (ts : list SemanticToken) : list Z :=
  match ts with
  | [] => []
  | (line, char, len, tokenType, tokenModifiers) :: rest =>
      [line; char; len; tokenType; tokenModifiers]
        ++ delta_from (line, char, len, tokenType, tokenModifiers) rest
  end.

(** ** Protocol data *)

Record Position : Type := { pos_line : Z; pos_character : Z }.

Record Range : Type := { range_start : Position; range_end : Position }.

Record TextEdit : Type := { range : Range; newText : string }.

(** [vscode.TextEdit.replace(range, newText)] *)
Definition TextEdit_replace (r : Range) (text : string) : TextEdit :=
  {| range := r; newText := text |}.

(** The [textEdit] of a completion item: [TextEdit | InsertReplaceEdit].
    [vscode.InsertReplaceEdit.is] holds on the second constructor only. *)
Inductive CompletionEdit : Type :=
| PlainEdit (e : TextEdit)
| InsertReplaceEdit (text : string) (insertRange replaceRange : Range).

(** A completion item: the fields this layer reads or writes, and the
    rest of the item as one untyped value. *)
Record CompletionItem : Type := {
  label : string;
  textEdit : option CompletionEdit;
  item_data : jsval;
  item_rest : jsval;
}.

Record CompletionList : Type := {
  isIncomplete : bool;
  items : list CompletionItem;
}.

Record CodeLens : Type := {
  lens_range : Range;
  lens_command : jsval;
  lens_data : jsval;
}.

Record CodeAction : Type := {
  title : string;
  action_data : jsval;
  action_rest : jsval;
}.

Record CallHierarchyItem : Type := {
  name : string;
  hierarchy_uri : string;
  hierarchy_data : jsval;
}.

(** The answer of [shared.GetEditorSelectionRequest]. *)
Record EditorSelection : Type := {
  selection_uri : string;
  selection_position : Position;
}.

Record OptionalVersionedTextDocumentIdentifier : Type := {
  uri : string;
  version : nullable Z;
}.

Record TextDocumentEdit : Type := {
  textDocument : OptionalVersionedTextDocumentIdentifier;
  edits : list TextEdit;
}.

(** An entry of [documentChanges]; [vscode.TextDocumentEdit.is] holds on
    the first constructor only. *)
Inductive DocumentChange : Type :=
| ChangeText (e : TextDocumentEdit)
| CreateFile (target : string)
| RenameFile (source target : string)
| DeleteFile (target : string).

Record WorkspaceEdit : Type := {
  changes : option (gmap string (list TextEdit));
  documentChanges : option (list DocumentChange);
}.

Record FileRename : Type := { oldUri : string; newUri : string }.

Record TextDocument : Type := { doc_uri : string; doc_version : Z }.

(** [params.capabilities.textDocument?.completion?.completionItem] *)
Record CompletionItemCapabilities : Type := {
  insertReplaceSupport : option bool;
}.

Record CompletionCapabilities : Type := {
  completionItem : option CompletionItemCapabilities;
}.

Record TextDocumentCapabilities : Type := {
  completion : option CompletionCapabilities;
}.

Record ClientCapabilities : Type := {
  capabilities_textDocument : option TextDocumentCapabilities;
}.

Record InitializeParams : Type := { capabilities : ClientCapabilities }.

(** [features.completion?.getDocumentSelectionRequest] *)
Record CompletionFeature : Type := {
  getDocumentSelectionRequest : option bool;
}.

Record LanguageFeatures : Type := {
  features_completion : option CompletionFeature;
}.

(** ** Strings *)

(** [String.prototype.toLowerCase], on the ASCII letters. *)
Definition ascii_toLowerCase (c : ascii) : ascii :=
  let n := nat_of_ascii c in
  if (65 <=? n)%nat && (n <=? 90)%nat then ascii_of_nat (n + 32) else c.

Fixpoint toLowerCase (s : string) : string :=
  match s with
  | EmptyString => EmptyString
  | String c rest => String (ascii_toLowerCase c) (toLowerCase rest)
  end.

(** [v.toLowerCase()] on an untyped value: only a string has the method. *)
Definition js_toLowerCase (v : jsval) : outcome string :=
  match v with
  | JStr s => Fulfilled (toLowerCase s)
  | _ => Rejected "TypeError"
  end.

(** [s.endsWith(suffix)] *)
Definition endsWith (s suffix : string) : bool :=
  String.prefix (String.rev suffix) (String.rev s).

(** [vscode.Command.create(title, command, ...args)] with at least one
    argument. *)
Definition Command_create (title command : string) (args : list jsval) : jsval :=
  JObj [("title", JStr title); ("command", JStr command);
        ("arguments", js_array args)].

(** ** Loops and promise combinators *)

(** A [for ... of] loop whose body may throw, updating each element in
    place. *)
Fixpoint for_each {A} (body : A → outcome A) (l : list A) : outcome (list A) :=
  match l with
  | [] => Fulfilled []
  | x :: rest =>
      x' ← await body x;
      rest' ← await for_each body rest;
      Fulfilled (x' :: rest')
  end.

(** [Promise.all]: fulfils with all the values when every promise
    fulfils, and rejects as soon as one rejects.  The reason kept here is
    that of the first rejected promise of the list. *)
Fixpoint Promise_all {A} (ps : list (outcome A)) : outcome (list A) :=
  match ps with
  | [] => Fulfilled []
  | Fulfilled a :: rest =>
      match Promise_all rest with
      | Fulfilled l => Fulfilled (a :: l)
      | Rejected e => Rejected e
      end
  | Rejected e :: _ => Rejected e
  end.

(** [shared.notEmpty] under [filter]: drops [null] and [undefined]. *)
Definition notEmpty {A} (x : nullable A) : option A :=
  match x with
  | val a => Some a
  | _ => None
  end.

(** ** The language service and the collaborators of [register] *)

(** [vue.LanguageService], by the methods that the handlers call.  The
    results that this layer hands through untouched have the type [R].
    A method answers with a promise; a method that throws is a rejected
    promise to its [async] caller. *)
Record LanguageService (R : Type) : Type := {
  doComplete : string → Position → jsval → outcome (nullable CompletionList);
  doCompletionResolve :
    CompletionItem → nullable Position → outcome (nullable CompletionItem);
  doHover : string → Position → outcome (nullable R);
  getSignatureHelp : string → Position → jsval → outcome (nullable R);
  prepareRename : string → Position → outcome (nullable R);
  doRename : string → Position → string → outcome (nullable R);
  doCodeLens : string → outcome (nullable (list CodeLens));
  doCodeLensResolve : CodeLens → outcome (nullable CodeLens);
  doExecuteCommand : string → list jsval → outcome (nullable R);
  doCodeActions : string → Range → jsval → outcome (nullable (list CodeAction));
  doCodeActionResolve : CodeAction → outcome (nullable CodeAction);
  findReferences : string → Position → outcome (nullable R);
  findImplementations : string → Position → outcome (nullable R);
  findDefinition : string → Position → outcome (nullable R);
  findTypeDefinition : string → Position → outcome (nullable R);
  findDocumentHighlights : string → Position → outcome (nullable R);
  findDocumentLinks : string → outcome (nullable R);
  findWorkspaceSymbols : string → outcome (list R);
  callHierarchy_doPrepare :
    string → Position → outcome (nullable (list CallHierarchyItem));
  callHierarchy_getIncomingCalls : CallHierarchyItem → outcome (nullable (list R));
  callHierarchy_getOutgoingCalls : CallHierarchyItem → outcome (nullable (list R));
  (** the partial token lists handed to the progress callback, and the
      final answer *)
  getSemanticTokens :
    string → nullable Range
    → list (list SemanticToken) * outcome (nullable (list SemanticToken));
  getInlayHints : string → Range → outcome (nullable R);
  getEditsForFileRename : string → string → outcome (nullable WorkspaceEdit);
  doAutoInsert : string → Position → jsval → outcome (nullable R);
}.
Arguments doComplete {R} _ _ _ _.
Arguments doCompletionResolve {R} _ _ _.
Arguments doHover {R} _ _ _.
Arguments getSignatureHelp {R} _ _ _ _.
Arguments prepareRename {R} _ _ _.
Arguments doRename {R} _ _ _ _.
Arguments doCodeLens {R} _ _.
Arguments doCodeLensResolve {R} _ _.
Arguments doExecuteCommand {R} _ _ _.
Arguments doCodeActions {R} _ _ _ _.
Arguments doCodeActionResolve {R} _ _.
Arguments findReferences {R} _ _ _.
Arguments findImplementations {R} _ _ _.
Arguments findDefinition {R} _ _ _.
Arguments findTypeDefinition {R} _ _ _.
Arguments findDocumentHighlights {R} _ _ _.
Arguments findDocumentLinks {R} _ _.
Arguments findWorkspaceSymbols {R} _ _.
Arguments callHierarchy_doPrepare {R} _ _ _.
Arguments callHierarchy_getIncomingCalls {R} _ _.
Arguments callHierarchy_getOutgoingCalls {R} _ _.
Arguments getSemanticTokens {R} _ _ _.
Arguments getInlayHints {R} _ _ _.
Arguments getEditsForFileRename {R} _ _ _.
Arguments doAutoInsert {R} _ _ _ _.

Record Project (R : Type) : Type := {
  project_getLanguageService : LanguageService R;
}.
Arguments project_getLanguageService {R} _.

(** What [projects.getProject] resolves to. *)
Record ProjectEntry (R : Type) : Type := {
  tsconfig : string;
  project : nullable (Project R);
}.
Arguments tsconfig {R} _.
Arguments project {R} _.

(** A workspace: its registered projects (promises of projects), and the
    inferred project it falls back to. *)
Record Workspace (R : Type) : Type := {
  workspace_projects : list (outcome (Project R));
  getInferredProject : outcome (Project R);
}.
Arguments workspace_projects {R} _.
Arguments getInferredProject {R} _.

(** The shared state of [../project]: the renamings in flight, as the
    set of their promises (a promise is known by its identity), and the
    contents saved for renamed files.  With it, what the server has
    created or sent so far: the number of renaming promises, the edits
    handed to [connection.workspace.applyEdit], and the rejections that
    nothing handles. *)
Record Store : Type := {
  fileRenamings : gset nat;
  renameFileContentCache : gmap string string;
  promises : nat;
  appliedEdits : list WorkspaceEdit;
  unhandledRejections : list string;
}.

(** An early [return] out of a loop, or the state the loop goes on with. *)
Inductive step (A S : Type) : Type :=
| Return (a : A)
| Continue (s : S).
Arguments Return {A S} a.
Arguments Continue {A S} s.

(** The correlation token of a resolve request: [(item.data)?.uri]. *)
Definition recover (item_data : jsval) : jsval := opt_get_prop item_data "uri".

Section Register.
Context {R : Type}.

(** [projects.getProject]; the key is whatever the handler passes. *)
Variable projects_getProject : jsval → outcome (nullable (ProjectEntry R)).
(** [projects.workspaces.values()] *)
Variable projects_workspaces : list (Workspace R).
Variable features : LanguageFeatures.
Variable params : InitializeParams.
(** [connection.sendRequest(shared.GetEditorSelectionRequest.type)] *)
Variable sendRequest_GetEditorSelection : outcome (nullable EditorSelection).
(** [connection.workspace.getConfiguration] *)
Variable getConfiguration : string → outcome (nullable string).
(** the promise that [connection.workspace.applyEdit] returns *)
Variable applyEdit : WorkspaceEdit → outcome bool.
(** [getScriptText(documents, fileName, ts.sys)], [shared.uriToFsPath] and
    [getDocumentSafely(documents, uri)] *)
Variable getScriptText : string → option string.
Variable uriToFsPath : string → string.
Variable getDocumentSafely : string → option TextDocument.
(** [vue.executePluginCommand], [vue.convertTagNameCasingCommand] *)
Variable executePluginCommand : string.
Variable convertTagNameCasingCommand : string.
(** [vue.mergeWorkspaceEdits(original, ...others)], which merges the
    others into [original] in place *)
Variable mergeWorkspaceEdits : WorkspaceEdit → list WorkspaceEdit → WorkspaceEdit.

(** *** [getLanguageService] and [worker] *)

Definition getLanguageService (uri : jsval)
  : outcome (nullable (LanguageService R)) :=
  entry ← await projects_getProject uri;
  let project :=
    match entry with
    | val e => project e
    | _ => undefined
    end in
  Fulfilled
    match project with
    | val p => val (project_getLanguageService p)
    | _ => undefined
    end.

Definition worker {T} (uri : jsval)
    (cb : LanguageService R → outcome (nullable T)) : outcome (nullable T) :=
  vueLs ← await getLanguageService uri;
  match vueLs with
  | val vueLs => cb vueLs
  | _ => Fulfilled undefined
  end.

(** *** Completion *)

Definition client_insertReplaceSupport : bool :=
  default false
    (td ← capabilities_textDocument (capabilities params);
     c ← completion td;
     ci ← completionItem c;
     insertReplaceSupport ci).

Definition downgrade_item (item : CompletionItem) : CompletionItem :=
  match textEdit item with
  | Some (InsertReplaceEdit text insertRange _) =>
      {| label := label item;
         textEdit := Some (PlainEdit (TextEdit_replace insertRange text));
         item_data := item_data item;
         item_rest := item_rest item |}
  | _ => item
  end.

Definition onCompletion (uri : string) (position : Position) (context : jsval)
  : outcome (nullable CompletionList) :=
  worker (JStr uri) (λ vueLs,
    list ← await doComplete vueLs uri position context;
    let insertReplaceSupport := client_insertReplaceSupport in
    match list with
    | val l =>
        if negb insertReplaceSupport
        then Fulfilled (val {| isIncomplete := isIncomplete l;
                               items := map downgrade_item (items l) |})
        else Fulfilled list
    | _ => Fulfilled list
    end).

(** [features.completion?.getDocumentSelectionRequest
      ? await connection.sendRequest(...) : undefined] *)
Definition activeSelection : outcome (nullable EditorSelection) :=
  match features_completion features with
  | Some {| getDocumentSelectionRequest := Some true |} =>
      sendRequest_GetEditorSelection
  | _ => Fulfilled undefined
  end.

(** The callback ends in [?? item] and so does the handler: an absent
    answer of the language service becomes the item, at whichever of the
    two it is seen. *)
Definition onCompletionResolve (item : CompletionItem) : outcome CompletionItem :=
  let uri := recover (item_data item) in
  if falsy uri then Fulfilled item
  else
    activeSel ← await activeSelection;
    lowered ← await js_toLowerCase uri;
    let newPosition :=
      match activeSel with
      | val sel =>
          if String.eqb (toLowerCase (selection_uri sel)) lowered
          then val (selection_position sel)
          else undefined
      | _ => undefined
      end in
    resolved ← await worker uri (λ vueLs,
      r ← await doCompletionResolve vueLs item newPosition;
      Fulfilled (val (coalesce r item)));
    Fulfilled (coalesce resolved item).

(** *** Requests handed to the language service as they are *)

Definition onHover (uri : string) (position : Position) :=
  worker (JStr uri) (λ vueLs, doHover vueLs uri position).

Definition onSignatureHelp (uri : string) (position : Position) (context : jsval) :=
  worker (JStr uri) (λ vueLs, getSignatureHelp vueLs uri position context).

Definition onPrepareRename (uri : string) (position : Position) :=
  worker (JStr uri) (λ vueLs, prepareRename vueLs uri position).

Definition onRenameRequest (uri : string) (position : Position) (newName : string) :=
  worker (JStr uri) (λ vueLs, doRename vueLs uri position newName).

Definition onCodeLens (uri : string) :=
  worker (JStr uri) (λ vueLs, doCodeLens vueLs uri).

Definition onReferences (uri : string) (position : Position) :=
  worker (JStr uri) (λ vueLs, findReferences vueLs uri position).

Definition onImplementation (uri : string) (position : Position) :=
  worker (JStr uri) (λ vueLs, findImplementations vueLs uri position).

Definition onDefinition (uri : string) (position : Position) :=
  worker (JStr uri) (λ vueLs, findDefinition vueLs uri position).

Definition onTypeDefinition (uri : string) (position : Position) :=
  worker (JStr uri) (λ vueLs, findTypeDefinition vueLs uri position).

Definition onDocumentHighlight (uri : string) (position : Position) :=
  worker (JStr uri) (λ vueLs, findDocumentHighlights vueLs uri position).

Definition onDocumentLinks (uri : string) :=
  worker (JStr uri) (λ vueLs, findDocumentLinks vueLs uri).

Definition inlayHint_on (uri : string) (r : Range) :=
  worker (JStr uri) (λ vueLs, getInlayHints vueLs uri r).

Definition onAutoInsert (uri : string) (position : Position) (options : jsval) :=
  worker (JStr uri) (λ vueLs, doAutoInsert vueLs uri position options).

(** *** Code lens resolve *)

Definition onCodeLensResolve (codeLens : CodeLens) : outcome CodeLens :=
  let uri := recover (lens_data codeLens) in
  if falsy uri then Fulfilled codeLens
  else
    resolved ← await worker uri (λ vueLs,
      r ← await doCodeLensResolve vueLs codeLens;
      Fulfilled (val (coalesce r codeLens)));
    Fulfilled (coalesce resolved codeLens).

(** *** Commands *)

(** The command, and [handler.arguments].  The context object that the
    handler passes along (the token, the progress and the two callbacks
    to the client) is the language service's business. *)
Definition onExecuteCommand (command : string) (arguments : nullable (list jsval))
  : outcome (nullable R) :=
  if String.eqb command executePluginCommand then
    match arguments with
    | val args =>
        worker (nth 0 args JUndefined) (λ vueLs,
          doExecuteCommand vueLs command args)
    | _ => Fulfilled undefined
    end
  else if String.eqb command "volar.server.convertTagNameCasing" then
    match arguments with
    | val args =>
        worker (nth 0 args JUndefined) (λ vueLs,
          doExecuteCommand vueLs executePluginCommand
            [ nth 0 args JUndefined;
              JUndefined;
              Command_create "" convertTagNameCasingCommand
                [nth 0 args JUndefined; nth 1 args JUndefined] ])
    | _ => Fulfilled undefined
    end
  else Fulfilled undefined.

(** *** Code actions *)

(** The body of the loop of [onCodeAction]. *)
Definition attach_uri (uri : string) (codeAction : CodeAction) : outcome CodeAction :=
  if truthy (action_data codeAction)
     && String.eqb (typeof (action_data codeAction)) "object"
  then
    d ← await set_prop (action_data codeAction) "uri" (JStr uri);
    Fulfilled {| title := title codeAction;
                 action_data := d;
                 action_rest := action_rest codeAction |}
  else
    Fulfilled {| title := title codeAction;
                 action_data := JObj [("uri", JStr uri)];
                 action_rest := action_rest codeAction |}.

Definition onCodeAction (uri : string) (r : Range) (context : jsval)
  : outcome (nullable (list CodeAction)) :=
  worker (JStr uri) (λ vueLs,
    answer ← await doCodeActions vueLs uri r context;
    let codeActions := coalesce answer [] in
    codeActions ← await for_each (attach_uri uri) codeActions;
    Fulfilled (val codeActions)).

Definition onCodeActionResolve (codeAction : CodeAction) : outcome CodeAction :=
  let uri := recover (action_data codeAction) in
  if falsy uri then Fulfilled codeAction
  else
    resolved ← await worker uri (λ vueLs, doCodeActionResolve vueLs codeAction);
    Fulfilled (coalesce resolved codeAction).

(** *** Call hierarchy *)

(** The body of the loop of [callHierarchy.onPrepare]. *)
Definition attach_hierarchy_uri (uri : string) (item : CallHierarchyItem)
  : outcome CallHierarchyItem :=
  let d :=
    if negb (String.eqb (typeof (hierarchy_data item)) "object")
    then JObj []
    else hierarchy_data item in
  d ← await set_prop d "__uri" (JStr uri);
  Fulfilled {| name := name item;
               hierarchy_uri := hierarchy_uri item;
               hierarchy_data := d |}.

(** The callback that [callHierarchy.onPrepare] hands to [worker]. *)
Definition onPrepare_callback (uri : string) (position : Position)
    (vueLs : LanguageService R) : outcome (nullable (list CallHierarchyItem)) :=
  items ← await callHierarchy_doPrepare vueLs uri position;
  items ← await
    match items with
    | val l => l' ← await for_each (attach_hierarchy_uri uri) l; Fulfilled (val l')
    | _ => Fulfilled items
    end;
  Fulfilled
    match items with
    | val (i :: l) => val (i :: l)
    | _ => null
    end.

Definition callHierarchy_onPrepare (uri : string) (position : Position)
  : outcome (list CallHierarchyItem) :=
  prepared ← await worker (JStr uri) (onPrepare_callback uri position);
  Fulfilled (coalesce prepared []).

(** [data?.__uri ?? handler.item.uri] *)
Definition hierarchy_origin (item : CallHierarchyItem) : jsval :=
  jcoalesce (opt_get_prop (hierarchy_data item) "__uri") (JStr (hierarchy_uri item)).

Definition callHierarchy_onIncomingCalls (item : CallHierarchyItem)
  : outcome (list R) :=
  let uri := hierarchy_origin item in
  calls ← await worker uri (λ vueLs, callHierarchy_getIncomingCalls vueLs item);
  Fulfilled (coalesce calls []).

Definition callHierarchy_onOutgoingCalls (item : CallHierarchyItem)
  : outcome (list R) :=
  let uri := hierarchy_origin item in
  calls ← await worker uri (λ vueLs, callHierarchy_getOutgoingCalls vueLs item);
  Fulfilled (coalesce calls []).

(** *** Semantic tokens *)

(** The value that the handler returns.  [r] is [undefined] for the whole
    document and the requested range otherwise. *)
Definition semanticTokens_handler (uri : string) (r : nullable Range)
  : outcome SemanticTokens :=
  built ← await worker (JStr uri) (λ vueLs,
    result ← await snd (getSemanticTokens vueLs uri r);
    Fulfilled (val (buildTokens (coalesce result []))));
  Fulfilled (coalesce built (buildTokens [])).

Definition semanticTokens_on (uri : string) : outcome SemanticTokens :=
  semanticTokens_handler uri undefined.

Definition semanticTokens_onRange (uri : string) (r : Range) : outcome SemanticTokens :=
  semanticTokens_handler uri (val r).

(** What the handler reports on the partial-result channel, when the
    request has one: each partial token list, encoded on its own. *)
Definition semanticTokens_reported (uri : string) (r : nullable Range)
    (resultProgress : bool) : list SemanticTokens :=
  match getLanguageService (JStr uri) with
  | Fulfilled (val vueLs) =>
      if resultProgress
      then map buildTokens (fst (getSemanticTokens vueLs uri r))
      else []
  | _ => []
  end.

(** *** Workspace symbols *)

(** [token k] is what [token.isCancellationRequested] reads when [k]
    language services have been queried. *)
Fixpoint each_project (token : nat → bool) (query : string)
    (projects : list (outcome (Project R))) (queried : nat) (results : list R)
  : outcome (step (nullable (list R)) (nat * list R)) :=
  match projects with
  | [] => Fulfilled (Continue (queried, results))
  | project :: rest =>
      if token queried then Fulfilled (Return undefined)
      else
        p ← await project;
        let vueLs := project_getLanguageService p in
        found ← await findWorkspaceSymbols vueLs query;
        each_project token query rest (S queried) (results ++ found)
  end.

Fixpoint each_workspace (token : nat → bool) (query : string)
    (workspaces : list (Workspace R)) (queried : nat) (results : list R)
  : outcome (nullable (list R)) :=
  match workspaces with
  | [] => Fulfilled (val results)
  | workspace :: rest =>
      let projects := workspace_projects workspace in
      let projects :=
        if (length projects =? 0)%nat then [getInferredProject workspace]
        else projects in
      s ← await each_project token query projects queried results;
      match s with
      | Return r => Fulfilled r
      | Continue (queried, results) =>
          each_workspace token query rest queried results
      end
  end.

Definition onWorkspaceSymbol (query : string) (token : nat → bool)
  : outcome (nullable (list R)) :=
  each_workspace token query projects_workspaces 0 [].

(** *** File renames *)

(** The inner [worker] of [onWillRenameFiles]. *)
Definition editsForFile (file : FileRename) : outcome (nullable WorkspaceEdit) :=
  vueLs ← await getLanguageService (JStr (oldUri file));
  match vueLs with
  | val vueLs => getEditsForFileRename vueLs (oldUri file) (newUri file)
  | _ => Fulfilled undefined
  end.

Definition renameWorker (files : list FileRename) : outcome (nullable WorkspaceEdit) :=
  answers ← await Promise_all (map editsForFile files);
  let edits := omap notEmpty answers in
  match edits with
  | result :: others => Fulfilled (val (mergeWorkspaceEdits result others))
  | [] => Fulfilled null
  end.

(** The first loop of the promise's executor. *)
Definition saveContents (files : list FileRename) (cache : gmap string string)
  : gmap string string :=
  fold_left (λ cache file,
    match getScriptText (uriToFsPath (oldUri file)) with
    | Some renameFileContent =>
        if String.eqb renameFileContent "" then cache
        else <[oldUri file := renameFileContent]> cache
    | None => cache
    end) files cache.

(** The loop over [handler.files] for one text-document edit. *)
Definition retarget (files : list FileRename)
    (td : OptionalVersionedTextDocumentIdentifier)
  : OptionalVersionedTextDocumentIdentifier :=
  fold_left (λ td file,
    if String.eqb (uri td) (oldUri file)
    then {| uri := newUri file;
            version :=
              match getDocumentSafely (newUri file) with
              | Some doc => val (doc_version doc)
              | None => version td
              end |}
    else td) files td.

(** [vscode.TextDocumentEdit.is], the library's guard of line 289: the
    entry has a [textDocument] that
    [OptionalVersionedTextDocumentIdentifier.is] accepts, a string [uri]
    with a [version] that is [null] or an integer of the protocol (32
    bits, signed), and an array of edits.  An entry without a version is
    refused, and so is a create, rename or delete operation. *)
Definition OptionalVersionedTextDocumentIdentifier_is
    (td : OptionalVersionedTextDocumentIdentifier) : bool :=
  match version td with
  | null => true
  | val v => (-2147483648 <=? v)%Z && (v <=? 2147483647)%Z
  | undefined => false
  end.

Definition TextDocumentEdit_is (change : DocumentChange) : bool :=
  match change with
  | ChangeText e => OptionalVersionedTextDocumentIdentifier_is (textDocument e)
  | _ => false
  end.

Definition retarget_change (files : list FileRename) (change : DocumentChange)
  : DocumentChange :=
  if TextDocumentEdit_is change then
    match change with
    | ChangeText e =>
        ChangeText {| textDocument := retarget files (textDocument e);
                      edits := edits e |}
    | _ => change
    end
  else change.

Definition retarget_edit (files : list FileRename) (edit : WorkspaceEdit)
  : WorkspaceEdit :=
  match documentChanges edit with
  | Some dcs =>
      {| changes := changes edit;
         documentChanges := Some (map (retarget_change files) dcs) |}
  | None => edit
  end.

(** The ['always'] branch up to its first suspension: the executor runs
    to [await shared.sleep(0)], the new promise joins [fileRenamings],
    and the task that will remove it waits for the promise. *)
Definition always_begin (files : list FileRename) (s : Store) : nat * Store :=
  let renaming := promises s in
  (renaming,
   {| fileRenamings := {[renaming]} ∪ fileRenamings s;
      renameFileContentCache := saveContents files (renameFileContentCache s);
      promises := S (promises s);
      appliedEdits := appliedEdits s;
      unhandledRejections := unhandledRejections s |}).

(** [connection.workspace.applyEdit(edit)]: the request is sent and its
    promise dropped. *)
Definition send_applyEdit (edit : WorkspaceEdit) (s : Store) : Store :=
  {| fileRenamings := fileRenamings s;
     renameFileContentCache := renameFileContentCache s;
     promises := promises s;
     appliedEdits := appliedEdits s ++ [edit];
     unhandledRejections :=
       match applyEdit edit with
       | Fulfilled _ => unhandledRejections s
       | Rejected e => unhandledRejections s ++ [e]
       end |}.

(** The rest of the executor, from the store it wakes up in.  When
    [worker()] rejects, the executor ends there: [resolve] is not called
    and the waiting task never runs.  Otherwise the edit is retargeted
    and sent, the promise resolves, and the waiting task removes it from
    [fileRenamings] and clears the cache. *)
Definition always_resume (renaming : nat) (files : list FileRename) (s : Store)
  : Store :=
  match renameWorker files with
  | Rejected e =>
      {| fileRenamings := fileRenamings s;
         renameFileContentCache := renameFileContentCache s;
         promises := promises s;
         appliedEdits := appliedEdits s;
         unhandledRejections := unhandledRejections s ++ [e] |}
  | Fulfilled edit =>
      let s :=
        match edit with
        | val edit => send_applyEdit (retarget_edit files edit) s
        | _ => s
        end in
      {| fileRenamings := fileRenamings s ∖ {[renaming]};
         renameFileContentCache := ∅;
         promises := promises s;
         appliedEdits := appliedEdits s;
         unhandledRejections := unhandledRejections s |}
  end.

Definition hasTsFile (files : list FileRename) : bool :=
  existsb (λ file,
    endsWith (newUri file) ".vue" || endsWith (newUri file) ".ts"
    || endsWith (newUri file) ".tsx") files.

Definition updateImports_key (files : list FileRename) : string :=
  if hasTsFile files
  then "typescript.updateImportsOnFileMove.enabled"
  else "javascript.updateImportsOnFileMove.enabled".

(** The handler: its answer, the store it leaves, and the renaming that
    is still to resume, if any. *)
Definition onWillRenameFiles (files : list FileRename) (s : Store)
  : outcome (nullable WorkspaceEdit) * Store * option nat :=
  match getConfiguration (updateImports_key files) with
  | Rejected e => (Rejected e, s, None)
  | Fulfilled config =>
      match config with
      | val "always" =>
          let '(renaming, s) := always_begin files s in
          (Fulfilled null, s, Some renaming)
      | val "prompt" => (renameWorker files, s, None)
      | _ => (Fulfilled null, s, None)
      end
  end.

(** The handler and, with nothing else scheduled in between, the
    renaming it started. *)
Definition onWillRenameFiles_settled (files : list FileRename) (s : Store)
  : outcome (nullable WorkspaceEdit) * Store :=
  match onWillRenameFiles files s with
  | (answer, s, Some renaming) => (answer, always_resume renaming files s)
  | (answer, s, None) => (answer, s)
  end.

End Register.

(** ** The workspace-symbol iteration, flattened *)

(** The projects that [onWorkspaceSymbol] visits, in its order: for each
    workspace its registered projects or, when it has none, its inferred
    project. *)
Definition projects_in_order {R} (workspaces : list (Workspace R))
  : list (outcome (Project R)) :=
  workspaces ≫= λ workspace,
    match workspace_projects workspace with
    | [] => [getInferredProject workspace]
    | projects => projects
    end.

(** One query: [(await project).getLanguageService()] and
    [await vueLs.findWorkspaceSymbols(query)]. *)
Definition query_project {R} (query : string) (project : outcome (Project R))
  : outcome (list R) :=
  p ← await project;
  findWorkspaceSymbols (project_getLanguageService p) query.

(** The two loops as one loop over the projects in order. *)
Fixpoint symbol_loop {R} (token : nat → bool) (query : string)
    (projects : list (outcome (Project R))) (queried : nat) (results : list R)
  : outcome (nullable (list R)) :=
  match projects with
  | [] => Fulfilled (val results)
  | project :: rest =>
      if token queried then Fulfilled undefined
      else
        found ← await query_project query project;
        symbol_loop token query rest (S queried) (results ++ found)
  end.

(** ** Sample collaborators *)

(** A registry that knows no project. *)
Definition no_projects : jsval → outcome (nullable (ProjectEntry unit)) :=
  λ _, Fulfilled undefined.

(** A language service that answers the given completion list, call
    hierarchy items, rename edits (by old file) and workspace symbols,
    and has nothing to say otherwise. *)
Definition sample_service_by
    (completions : outcome (nullable CompletionList))
    (prepared : outcome (nullable (list CallHierarchyItem)))
    (renameEdits : string → outcome (nullable WorkspaceEdit))
    (symbols : outcome (list unit)) : LanguageService unit :=
  {| doComplete := λ _ _ _, completions;
     doCompletionResolve := λ _ _, Fulfilled undefined;
     doHover := λ _ _, Fulfilled undefined;
     getSignatureHelp := λ _ _ _, Fulfilled undefined;
     prepareRename := λ _ _, Fulfilled undefined;
     doRename := λ _ _ _, Fulfilled undefined;
     doCodeLens := λ _, Fulfilled undefined;
     doCodeLensResolve := λ _, Fulfilled undefined;
     doExecuteCommand := λ _ _, Fulfilled undefined;
     doCodeActions := λ _ _ _, Fulfilled undefined;
     doCodeActionResolve := λ _, Fulfilled undefined;
     findReferences := λ _ _, Fulfilled undefined;
     findImplementations := λ _ _, Fulfilled undefined;
     findDefinition := λ _ _, Fulfilled undefined;
     findTypeDefinition := λ _ _, Fulfilled undefined;
     findDocumentHighlights := λ _ _, Fulfilled undefined;
     findDocumentLinks := λ _, Fulfilled undefined;
     findWorkspaceSymbols := λ _, symbols;
     callHierarchy_doPrepare := λ _ _, prepared;
     callHierarchy_getIncomingCalls := λ _, Fulfilled undefined;
     callHierarchy_getOutgoingCalls := λ _, Fulfilled undefined;
     getSemanticTokens := λ _ _, ([], Fulfilled undefined);
     getInlayHints := λ _ _, Fulfilled undefined;
     getEditsForFileRename := λ oldUri _, renameEdits oldUri;
     doAutoInsert := λ _ _ _, Fulfilled undefined |}.

Definition sample_service
    (completions : outcome (nullable CompletionList))
    (prepared : outcome (nullable (list CallHierarchyItem)))
    (renameEdits : outcome (nullable WorkspaceEdit))
    (symbols : outcome (list unit)) : LanguageService unit :=
  sample_service_by completions prepared (λ _, renameEdits) symbols.

(** A language service that only answers rename edits. *)
Definition rename_service (renameEdits : string → outcome (nullable WorkspaceEdit))
  : LanguageService unit :=
  sample_service_by (Fulfilled undefined) (Fulfilled undefined) renameEdits
    (Fulfilled []).

(** A registry in which every document belongs to the one project of the
    given language service. *)
Definition one_project (vueLs : LanguageService unit)
  : jsval → outcome (nullable (ProjectEntry unit)) :=
  λ _, Fulfilled (val {| tsconfig := "tsconfig.json";
                         project := val {| project_getLanguageService := vueLs |} |}).

Definition origin : Position := {| pos_line := 0; pos_character := 0 |}.

Definition sample_range (a b : Z) : Range :=
  {| range_start := {| pos_line := 0; pos_character := a |};
     range_end := {| pos_line := 0; pos_character := b |} |}.

Definition sample_item (d : jsval) : CompletionItem :=
  {| label := "ref";
     textEdit := Some (InsertReplaceEdit "ref" (sample_range 0 2) (sample_range 0 5));
     item_data := d;
     item_rest := JUndefined |}.

Definition sample_completions : CompletionList :=
  {| isIncomplete := false; items := [sample_item JNull] |}.

Definition sample_hierarchy_item (d : jsval) : CallHierarchyItem :=
  {| name := "setup"; hierarchy_uri := "file:///a.vue"; hierarchy_data := d |}.

Definition sample_action (d : jsval) : CodeAction :=
  {| title := "Extract"; action_data := d; action_rest := JUndefined |}.

Definition no_capabilities : InitializeParams :=
  {| capabilities := {| capabilities_textDocument := None |} |}.

Definition no_features : LanguageFeatures := {| features_completion := None |}.

Definition sample_project (symbols : list unit) : outcome (Project unit) :=
  Fulfilled {| project_getLanguageService :=
                 sample_service (Fulfilled undefined) (Fulfilled undefined)
                   (Fulfilled undefined) (Fulfilled symbols) |}.

(** Two workspaces: one with two registered projects, one with none. *)
Definition sample_workspaces : list (Workspace unit) :=
  [ {| workspace_projects := [sample_project [()]; sample_project [(); ()]];
       getInferredProject := sample_project [] |};
    {| workspace_projects := [];
       getInferredProject := sample_project [()] |} ].

(** A token that is cancelled once the first query is done. *)
Definition cancelled_after_first (queried : nat) : bool := (1 <=? queried)%nat.

(** Modelled from the spec: [vue.mergeWorkspaceEdits] belongs to the
    language-service package.  The first edit is the merge target and
    every later edit is folded into it: the edit lists of a document are
    concatenated, and so are the lists of document changes with their
    create, rename and delete operations. *)
Definition merge_edit (original other : WorkspaceEdit) : WorkspaceEdit :=
  {| changes :=
       union_with (λ a b, Some (union_with (λ x y, Some (x ++ y)) a b))
         (changes original) (changes other);
     documentChanges :=
       union_with (λ a b, Some (a ++ b))
         (documentChanges original) (documentChanges other) |}.

Definition mergeWorkspaceEdits_model (original : WorkspaceEdit)
    (others : list WorkspaceEdit) : WorkspaceEdit :=
  fold_left merge_edit others original.

Definition empty_store : Store :=
  {| fileRenamings := ∅;
     renameFileContentCache := ∅;
     promises := 0;
     appliedEdits := [];
     unhandledRejections := [] |}.

(** An edit of one text document, at version 3. *)
Definition edit_of (target : string) : WorkspaceEdit :=
  {| changes := None;
     documentChanges :=
       Some [ChangeText
               {| textDocument := {| uri := target; version := val 3%Z |};
                  edits := [{| range := sample_range 7 11; newText := "./b" |}] |}] |}.

Definition rename_a_b : FileRename :=
  {| oldUri := "file:///a.ts"; newUri := "file:///b.ts" |}.
Definition rename_b_c : FileRename :=
  {| oldUri := "file:///b.ts"; newUri := "file:///c.ts" |}.
Definition rename_x_y : FileRename :=
  {| oldUri := "file:///x.ts"; newUri := "file:///y.ts" |}.
Definition rename_m_n : FileRename :=
  {| oldUri := "file:///m.ts"; newUri := "file:///n.ts" |}.

(** A language service whose rename computation fails, and one that
    answers an edit of [main.ts]. *)
Definition failing_service : LanguageService unit :=
  rename_service (λ _, Rejected "rename failed").

Definition main_service : LanguageService unit :=
  rename_service (λ _, Fulfilled (val (edit_of "file:///main.ts"))).

Definition entry_of (vueLs : LanguageService unit) : nullable (ProjectEntry unit) :=
  val {| tsconfig := "tsconfig.json";
         project := val {| project_getLanguageService := vueLs |} |}.

(** [a.ts] belongs to the project whose language service fails, [x.ts]
    to no project, and every other file to the project of [main.ts]. *)
Definition sample_registry : jsval → outcome (nullable (ProjectEntry unit)) :=
  λ key,
    match key with
    | JStr target =>
        if String.eqb target "file:///a.ts" then Fulfilled (entry_of failing_service)
        else if String.eqb target "file:///x.ts" then Fulfilled undefined
        else Fulfilled (entry_of main_service)
    | _ => Fulfilled undefined
    end.

(** A language service that answers an edit of [a.ts] when [a.ts] is
    renamed, and no edit for another file. *)
Definition editing_a : LanguageService unit :=
  rename_service (λ oldUri,
    if String.eqb oldUri "file:///a.ts"
    then Fulfilled (val (edit_of "file:///a.ts"))
    else Fulfilled undefined).

Definition always_update : string → outcome (nullable string) :=
  λ _, Fulfilled (val "always").

Definition saved_text : string → option string := λ _, Some "export {}".

Definition no_documents : string → option TextDocument := λ _, None.

(** The new document [b.ts] is open at version 1. *)
Definition b_is_open : string → option TextDocument :=
  λ target,
    if String.eqb target "file:///b.ts"
    then Some {| doc_uri := target; doc_version := 1 |}
    else None.

Definition edit_applied : WorkspaceEdit → outcome bool := λ _, Fulfilled true.

Definition edit_refused : WorkspaceEdit → outcome bool :=
  λ _, Rejected "connection lost".

Definition prompt_update : string → outcome (nullable string) :=
  λ _, Fulfilled (val "prompt").

(** ** Reading an encoded token array back *)

(** The protocol's reading of the integer array: five integers per
    token, the line relative to the line before, the column relative to
    the column before when the line is the same. *)
Fixpoint decode_from (prevLine prevChar : Z) (encoded : list Z)
  : list SemanticToken :=
  match encoded with
  | deltaLine :: deltaChar :: len :: tokenType :: tokenModifiers :: rest =>
      let line := (prevLine + deltaLine)%Z in
      let char :=
        if (deltaLine =? 0)%Z then (prevChar + deltaChar)%Z else deltaChar in
      (line, char, len, tokenType, tokenModifiers) :: decode_from line char rest
  | _ => []
  end.

Definition decode_tokens (encoded : list Z) : list SemanticToken :=
  decode_from 0 0 encoded.

(** A token all of whose five numbers are natural numbers. *)
Definition token_natural (t : SemanticToken) : Prop :=
  let '(line, char, len, tokenType, tokenModifiers) := t in
  (0 ≤ line ∧ 0 ≤ char ∧ 0 ≤ len ∧ 0 ≤ tokenType ∧ 0 ≤ tokenModifiers)%Z.

(** ** Further sample collaborators *)

(** A workspace whose second project cannot be loaded. *)
Definition failing_workspaces : list (Workspace unit) :=
  [ {| workspace_projects := [sample_project [()]; Rejected "no project"];
       getInferredProject := sample_project [] |} ].

Definition never_update : string → outcome (nullable string) :=
  λ _, Fulfilled (val "never").

(** ** What the first phase attaches *)

(** What [onCodeAction] does to one code action. *)
Definition uri_attached (target : string) (given attached : CodeAction) : Prop :=
  recover (action_data attached) = JStr target
  ∧ title attached = title given
  ∧ action_rest attached = action_rest given
  ∧ ∀ key, key ≠ "uri" →
      opt_get_prop (action_data attached) key
      = opt_get_prop (action_data given) key.

(** What [callHierarchy.onPrepare] does to one item. *)
Definition origin_attached (target : string) (given attached : CallHierarchyItem)
  : Prop :=
  hierarchy_origin attached = JStr target
  ∧ name attached = name given
  ∧ hierarchy_uri attached = hierarchy_uri given
  ∧ ∀ key, key ≠ "__uri" →
      opt_get_prop (hierarchy_data attached) key
      = opt_get_prop (hierarchy_data given) key.

(** A language service that answers the given code actions and resolves
    none of them. *)
Definition action_service (actions : nullable (list CodeAction))
  : LanguageService unit :=
  {| doComplete := λ _ _ _, Fulfilled undefined;
     doCompletionResolve := λ _ _, Fulfilled undefined;
     doHover := λ _ _, Fulfilled undefined;
     getSignatureHelp := λ _ _ _, Fulfilled undefined;
     prepareRename := λ _ _, Fulfilled undefined;
     doRename := λ _ _ _, Fulfilled undefined;
     doCodeLens := λ _, Fulfilled undefined;
     doCodeLensResolve := λ _, Fulfilled undefined;
     doExecuteCommand := λ _ _, Fulfilled undefined;
     doCodeActions := λ _ _ _, Fulfilled actions;
     doCodeActionResolve := λ _, Fulfilled undefined;
     findReferences := λ _ _, Fulfilled undefined;
     findImplementations := λ _ _, Fulfilled undefined;
     findDefinition := λ _ _, Fulfilled undefined;
     findTypeDefinition := λ _ _, Fulfilled undefined;
     findDocumentHighlights := λ _ _, Fulfilled undefined;
     findDocumentLinks := λ _, Fulfilled undefined;
     findWorkspaceSymbols := λ _, Fulfilled [];
     callHierarchy_doPrepare := λ _ _, Fulfilled undefined;
     callHierarchy_getIncomingCalls := λ _, Fulfilled undefined;
     callHierarchy_getOutgoingCalls := λ _, Fulfilled undefined;
     getSemanticTokens := λ _ _, ([], Fulfilled undefined);
     getInlayHints := λ _ _, Fulfilled undefined;
     getEditsForFileRename := λ _ _, Fulfilled undefined;
     doAutoInsert := λ _ _ _, Fulfilled undefined |}.

(** A code action whose data already has a property of its own. *)
Definition sample_fix : CodeAction :=
  sample_action (JObj [("kind", JStr "fix")]).

Definition sample_fix_tagged : CodeAction :=
  sample_action (JObj [("kind", JStr "fix"); ("uri", JStr "file:///a.vue")]).

(** A language service that prepares one call hierarchy item, found in
    another file. *)
Definition hierarchy_service : LanguageService unit :=
  sample_service (Fulfilled undefined)
    (Fulfilled (val [ {| name := "helper";
                         hierarchy_uri := "file:///lib.ts";
                         hierarchy_data := JUndefined |} ]))
    (Fulfilled undefined) (Fulfilled []).

Definition silent_service : LanguageService unit :=
  sample_service (Fulfilled undefined) (Fulfilled undefined)
    (Fulfilled undefined) (Fulfilled []).

(** An identifier that ends in [.vue], [.ts] or [.tsx]. *)
Definition typed_source (target : string) : Prop :=
  (∃ stem, target = stem +:+ ".vue")
  ∨ (∃ stem, target = stem +:+ ".ts")
  ∨ (∃ stem, target = stem +:+ ".tsx").

(** An edit of [a.ts] whose text-document identifier has no version. *)
Definition unversioned_edit_of_a : WorkspaceEdit :=
  {| changes := None;
     documentChanges :=
       Some [ChangeText
               {| textDocument := {| uri := "file:///a.ts"; version := undefined |};
                  edits := [{| range := sample_range 7 11; newText := "./b" |}] |}] |}.

(** * Properties *)

(** ** The token encoder *)

Section ArraySortFacts.
Context {A : Type} (cmp : A → A → Z).
Hypothesis cmp_total : ∀ x y, (0 < cmp x y)%Z → (cmp y x <= 0)%Z.

Let le (x y : A) : Prop := (cmp x y <= 0)%Z.

Lemma sort_insert_perm (x : A) (l : list A) : sort_insert cmp x l ≡ₚ x :: l.
Proof.
  induction l as [|y l IH]; simpl; [done|].
  destruct (cmp x y <=? 0)%Z; [done|].
  rewrite IH. apply Permutation_swap.
Qed.

Lemma array_sort_perm (l : list A) : array_sort cmp l ≡ₚ l.
Proof.
  induction l as [|x l IH]; simpl; [done|].
  rewrite sort_insert_perm. by f_equiv.
Qed.

Lemma sort_insert_hd (a x : A) (l : list A) :
  le a x → HdRel le a l → HdRel le a (sort_insert cmp x l).
Proof.
  intros Hax Hal. destruct l as [|y l]; simpl; [by constructor|].
  destruct (cmp x y <=? 0)%Z; constructor; [done|].
  by inversion Hal.
Qed.

Lemma sort_insert_sorted (x : A) (l : list A) :
  Sorted le l → Sorted le (sort_insert cmp x l).
Proof using cmp_total.
  induction 1 as [|y l Hl IH Hhd]; simpl.
  - by repeat constructor.
  - destruct (cmp x y <=? 0)%Z eqn:E.
    + apply Z.leb_le in E. by repeat constructor.
    + apply Z.leb_gt in E. constructor; [done|].
      apply sort_insert_hd; [|done]. by apply cmp_total.
Qed.

Lemma array_sort_sorted (l : list A) : Sorted le (array_sort cmp l).
Proof using cmp_total.
  induction l as [|x l IH]; simpl; [constructor|].
  by apply sort_insert_sorted.
Qed.
End ArraySortFacts.

Lemma compareTokens_le (a b : SemanticToken) :
  (compareTokens a b <= 0)%Z ↔ token_le a b.
Proof.
  unfold compareTokens, token_le.
  destruct (Z.eqb_spec (tok_line a - tok_line b) 0); lia.
Qed.

Lemma compareTokens_total (a b : SemanticToken) :
  (0 < compareTokens a b)%Z → (compareTokens b a <= 0)%Z.
Proof.
  rewrite compareTokens_le. unfold compareTokens, token_le.
  destruct (Z.eqb_spec (tok_line a - tok_line b) 0); lia.
Qed.

Lemma token_le_trans : Transitive token_le.
Proof. intros a b c. unfold token_le. lia. Qed.

Lemma token_le_antisym (a b : SemanticToken) :
  token_le a b → token_le b a → token_key a = token_key b.
Proof. unfold token_le, token_key. intros ??. f_equal; lia. Qed.

Lemma Sorted_weaken {A} (R R' : relation A) (l : list A) :
  (∀ x y, R x y → R' x y) → Sorted R l → Sorted R' l.
Proof.
  intros HR. induction 1 as [|x l Hl IH Hhd]; constructor; [done|].
  destruct Hhd; constructor. by apply HR.
Qed.

Lemma sorted_tokens (l : list SemanticToken) :
  Sorted token_le (array_sort compareTokens l).
Proof.
  eapply Sorted_weaken; [|apply array_sort_sorted, compareTokens_total].
  intros x y. apply compareTokens_le.
Qed.

Lemma NoDup_fmap_eq {A B} (f : A → B) (l : list A) (x y : A) :
  NoDup (f <$> l) → x ∈ l → y ∈ l → f x = f y → x = y.
Proof.
  induction l as [|a l IH]; simpl; intros Hnd Hx Hy Hf.
  - by apply elem_of_nil in Hx.
  - apply NoDup_cons in Hnd as [Ha Hnd].
    apply elem_of_cons in Hx as [->|Hx]; apply elem_of_cons in Hy as [->|Hy];
      [done| | |by apply IH].
    + exfalso. apply Ha. rewrite Hf. by apply list_elem_of_fmap_2.
    + exfalso. apply Ha. rewrite <-Hf. by apply list_elem_of_fmap_2.
Qed.

Lemma array_sort_permutation_invariant (l1 l2 : list SemanticToken) :
  l1 ≡ₚ l2 → NoDup (token_key <$> l1) →
  array_sort compareTokens l1 = array_sort compareTokens l2.
Proof.
  intros Hp Hnd.
  apply (@Sorted_unique_strong _ token_le token_le_trans);
    [|apply sorted_tokens..|by rewrite !array_sort_perm].
  intros x y Hx Hy Hxy Hyx.
  rewrite array_sort_perm in Hx. rewrite array_sort_perm, <-Hp in Hy.
  eapply NoDup_fmap_eq; eauto using token_le_antisym.
Qed.

Lemma push_all_started (b : SemanticTokensBuilder) (prev : SemanticToken)
    (ts : list SemanticToken) :
  _data b ≠ [] → _prevLine b = tok_line prev → _prevChar b = tok_char prev →
  _data (fold_left push ts b) = _data b ++ delta_from prev ts.
Proof.
  revert b prev. induction ts as [|t ts IH]; intros b prev Hne Hl Hc; simpl.
  - by rewrite app_nil_r.
  - destruct t as [[[[line char] len] ty] mods].
    rewrite (IH _ (line, char, len, ty, mods)); simpl.
    + destruct (_data b) as [|d ds] eqn:Hd; [done|]. simpl.
      rewrite Hl, Hc, <-app_assoc. simpl. do 3 f_equal.
      destruct (Z.eqb_spec (line - tok_line prev) 0),
        (Z.eqb_spec line (tok_line prev)); (done || lia).
    + by destruct (_data b).
    + done.
    + done.
Qed.

Lemma push_all_encode (ts : list SemanticToken) :
  _data (fold_left push ts new_SemanticTokensBuilder) = delta_encode ts.
Proof.
  destruct ts as [|t ts]; [done|].
  destruct t as [[[[line char] len] ty] mods]. simpl.
  by rewrite (push_all_started _ (line, char, len, ty, mods)).
Qed.

(** Tokens of two lines, out of order: the second line starts with an
    absolute column, and its second token is relative to its first. *)
Example buildTokens_two_lines :
  data (buildTokens [(1, 4, 2, 0, 0); (0, 2, 1, 1, 0); (1, 1, 1, 2, 0)]%Z)
  = [0; 2; 1; 1; 0; 1; 1; 1; 2; 0; 0; 3; 2; 0; 0]%Z.
Proof. reflexivity. Qed.

(** C4: [buildTokens] gives the same encoded output on any two
    permutations of a token sequence with pairwise distinct (line, column)
    keys; its output is the delta encoding of the tokens sorted by line,
    then column; and encoding [(0,0,3,T,0)] and [(0,5,2,T,0)] gives a first
    entry with zero deltas and a second entry with line delta 0 and column
    delta 5. *)
Theorem buildTokens_deterministic (T : Z) (l1 l2 : list SemanticToken) :
  l1 ≡ₚ l2 → NoDup (token_key <$> l1) →
  buildTokens l1 = buildTokens l2
  ∧ (∃ sorted, sorted ≡ₚ l1 ∧ Sorted token_le sorted
       ∧ data (buildTokens l1) = delta_encode sorted)
  ∧ data (buildTokens [(0, 0, 3, T, 0); (0, 5, 2, T, 0)]%Z)
      = [0; 0; 3; T; 0; 0; 5; 2; T; 0]%Z
  ∧ data (buildTokens [(0, 5, 2, T, 0); (0, 0, 3, T, 0)]%Z)
      = [0; 0; 3; T; 0; 0; 5; 2; T; 0]%Z.
Proof.
  intros Hp Hnd. split; [|split; [|split]].
  - unfold buildTokens. by rewrite (array_sort_permutation_invariant l1 l2).
  - exists (array_sort compareTokens l1).
    split; [apply array_sort_perm|]. split; [apply sorted_tokens|].
    unfold buildTokens. simpl. apply push_all_encode.
  - reflexivity.
  - reflexivity.
Qed.

Lemma buildTokens_deterministic_witness :
  buildTokens [(2, 1, 4, 7, 0); (0, 3, 1, 2, 1); (2, 0, 1, 5, 0)]%Z
  = buildTokens [(0, 3, 1, 2, 1); (2, 0, 1, 5, 0); (2, 1, 4, 7, 0)]%Z.
Proof.
  apply (buildTokens_deterministic 0).
  - apply (Permutation_cons_append [_; _]).
  - apply (bool_decide_unpack _). by vm_compute.
Defined.

(** ** Dispatch without a language service *)

Section DispatchFacts.
Context {R : Type}.
Variable projects_getProject : jsval → outcome (nullable (ProjectEntry R)).
Variable features : LanguageFeatures.
Variable params : InitializeParams.
Variable sendRequest_GetEditorSelection : outcome (nullable EditorSelection).
Variable executePluginCommand convertTagNameCasingCommand : string.

Lemma worker_no_service {T} (uri : jsval)
    (cb : LanguageService R → outcome (nullable T)) :
  getLanguageService projects_getProject uri = Fulfilled undefined →
  worker projects_getProject uri cb = Fulfilled undefined.
Proof. unfold worker. by intros ->. Qed.

Lemma worker_service {T} (uri : jsval) (vueLs : LanguageService R)
    (cb : LanguageService R → outcome (nullable T)) :
  getLanguageService projects_getProject uri = Fulfilled (val vueLs) →
  worker projects_getProject uri cb = cb vueLs.
Proof. unfold worker. by intros ->. Qed.

(** [getLanguageService] never answers [null]. *)
Lemma getLanguageService_not_null (uri : jsval) :
  getLanguageService projects_getProject uri ≠ Fulfilled null.
Proof.
  unfold getLanguageService.
  destruct (projects_getProject uri) as [[| |[? [| |?]]]|]; simpl; congruence.
Qed.

(** A document that the registry does not know has no language
    service. *)
Lemma getLanguageService_no_project (uri : jsval) :
  projects_getProject uri = Fulfilled undefined →
  getLanguageService projects_getProject uri = Fulfilled undefined.
Proof. unfold getLanguageService. by intros ->. Qed.

(** C1, amended: on a document for which [getLanguageService] yields no
    language service, every handler that goes through [worker] answers
    [undefined], and a resolve handler answers its input unchanged
    (completion resolve: when the editor-selection request, if it is made,
    is answered); the exceptions are the semantic-tokens handlers, which
    answer the encoding of no tokens, and the three call-hierarchy
    handlers, which answer the empty list.  No handler rejects. *)
Theorem no_service_dispatch (uri : string) :
  getLanguageService projects_getProject (JStr uri) = Fulfilled undefined →
  (∀ position context,
     onCompletion projects_getProject params uri position context
     = Fulfilled undefined)
  ∧ (∀ position, onHover projects_getProject uri position = Fulfilled undefined)
  ∧ (∀ position context,
       onSignatureHelp projects_getProject uri position context
       = Fulfilled undefined)
  ∧ (∀ position,
       onPrepareRename projects_getProject uri position = Fulfilled undefined)
  ∧ (∀ position newName,
       onRenameRequest projects_getProject uri position newName
       = Fulfilled undefined)
  ∧ onCodeLens projects_getProject uri = Fulfilled undefined
  ∧ (∀ r context,
       onCodeAction projects_getProject uri r context = Fulfilled undefined)
  ∧ (∀ position, onReferences projects_getProject uri position = Fulfilled undefined)
  ∧ (∀ position,
       onImplementation projects_getProject uri position = Fulfilled undefined)
  ∧ (∀ position, onDefinition projects_getProject uri position = Fulfilled undefined)
  ∧ (∀ position,
       onTypeDefinition projects_getProject uri position = Fulfilled undefined)
  ∧ (∀ position,
       onDocumentHighlight projects_getProject uri position = Fulfilled undefined)
  ∧ onDocumentLinks projects_getProject uri = Fulfilled undefined
  ∧ (∀ r, inlayHint_on projects_getProject uri r = Fulfilled undefined)
  ∧ (∀ position options,
       onAutoInsert projects_getProject uri position options = Fulfilled undefined)
  ∧ (∀ command args,
       nth 0 args JUndefined = JStr uri →
       onExecuteCommand projects_getProject executePluginCommand
         convertTagNameCasingCommand command (val args) = Fulfilled undefined)
  ∧ (∀ item,
       recover (item_data item) = JStr uri →
       (∃ sel, activeSelection features sendRequest_GetEditorSelection
               = Fulfilled sel) →
       onCompletionResolve projects_getProject features
         sendRequest_GetEditorSelection item = Fulfilled item)
  ∧ (∀ codeLens,
       recover (lens_data codeLens) = JStr uri →
       onCodeLensResolve projects_getProject codeLens = Fulfilled codeLens)
  ∧ (∀ codeAction,
       recover (action_data codeAction) = JStr uri →
       onCodeActionResolve projects_getProject codeAction = Fulfilled codeAction)
  ∧ semanticTokens_on projects_getProject uri = Fulfilled (buildTokens [])
  ∧ (∀ r, semanticTokens_onRange projects_getProject uri r
          = Fulfilled (buildTokens []))
  ∧ (∀ position,
       callHierarchy_onPrepare projects_getProject uri position = Fulfilled [])
  ∧ (∀ item,
       hierarchy_origin item = JStr uri →
       callHierarchy_onIncomingCalls projects_getProject item = Fulfilled []
       ∧ callHierarchy_onOutgoingCalls projects_getProject item = Fulfilled []).
Proof.
  intros Hno.
  repeat match goal with |- _ ∧ _ => split end;
    try (intros; by apply worker_no_service).
  - intros command args Hargs. unfold onExecuteCommand. rewrite Hargs.
    repeat case_match; try done; by apply worker_no_service.
  - intros item Huri [sel Hsel]. unfold onCompletionResolve.
    rewrite Huri. destruct (falsy (JStr uri)); [done|].
    rewrite Hsel. simpl. by rewrite worker_no_service.
  - intros codeLens Huri. unfold onCodeLensResolve.
    rewrite Huri. destruct (falsy (JStr uri)); [done|].
    by rewrite worker_no_service.
  - intros codeAction Huri. unfold onCodeActionResolve.
    rewrite Huri. destruct (falsy (JStr uri)); [done|].
    by rewrite worker_no_service.
  - unfold semanticTokens_on, semanticTokens_handler.
    by rewrite worker_no_service.
  - intros r. unfold semanticTokens_onRange, semanticTokens_handler.
    by rewrite worker_no_service.
  - intros position. unfold callHierarchy_onPrepare.
    by rewrite worker_no_service.
  - intros item Huri.
    unfold callHierarchy_onIncomingCalls, callHierarchy_onOutgoingCalls.
    rewrite Huri. by rewrite !worker_no_service.
Qed.

End DispatchFacts.

Lemma no_service_dispatch_witness :
  onHover no_projects "file:///a.vue" origin = Fulfilled undefined.
Proof.
  apply (no_service_dispatch no_projects no_features no_capabilities
           (Fulfilled undefined) "executePlugin" "convertTagNameCasing"
           "file:///a.vue").
  reflexivity.
Defined.

(** C1 as stated fails on the semantic-tokens handler: without a language
    service it answers a token object, the encoding of no tokens, where
    the claim has an absent result; and the call-hierarchy prepare
    handler answers an empty list. *)
Lemma no_service_semanticTokens_not_absent :
  getLanguageService no_projects (JStr "file:///a.vue") = Fulfilled undefined
  ∧ semanticTokens_on no_projects "file:///a.vue" = Fulfilled {| data := [] |}
  ∧ callHierarchy_onPrepare no_projects "file:///a.vue" origin = Fulfilled [].
Proof. by vm_compute. Qed.

(** ** Resolve requests and the correlation token *)

Section ResolveFacts.
Context {R : Type}.
Variable projects_getProject : jsval → outcome (nullable (ProjectEntry R)).
Variable features : LanguageFeatures.
Variable params : InitializeParams.
Variable sendRequest_GetEditorSelection : outcome (nullable EditorSelection).

(** Where [recover] finds nothing: a [data] field that is absent, [null]
    or a primitive, and an object without a [uri] property. *)
Lemma recover_nothing (d : jsval) :
  (∀ props, d ≠ JObj props) → recover d = JUndefined.
Proof. destruct d; try done. intros H. by destruct (H props). Qed.

Lemma recover_no_property (props : list (string * jsval)) :
  "uri" ∉ props.*1 → recover (JObj props) = JUndefined.
Proof.
  unfold recover. simpl. induction props as [|[k v] props IH]; [done|].
  simpl. intros Hk. apply not_elem_of_cons in Hk as [Hk Hks].
  destruct (String.eqb_spec k "uri"); [congruence|]. by apply IH.
Qed.

(** C6, amended: a resolve request whose item carries no [uri] in its
    [data] or a falsy one (what [recover] reads is falsy) is answered
    with the input item, and the handler does not reject; this is so in
    particular when the [data] field is absent, [null] or a primitive, and
    when it is an object without a [uri] property.  A [uri] that is truthy
    and not a string is outside the handlers' type assertion and is not
    covered. *)
Theorem resolve_without_token :
  (∀ item,
     falsy (recover (item_data item)) = true →
     onCompletionResolve projects_getProject features
       sendRequest_GetEditorSelection item = Fulfilled item)
  ∧ (∀ codeLens,
       falsy (recover (lens_data codeLens)) = true →
       onCodeLensResolve projects_getProject codeLens = Fulfilled codeLens)
  ∧ (∀ codeAction,
       falsy (recover (action_data codeAction)) = true →
       onCodeActionResolve projects_getProject codeAction = Fulfilled codeAction)
  ∧ (∀ d,
       (∀ props, d ≠ JObj props) ∨ (∃ props, d = JObj props ∧ "uri" ∉ props.*1) →
       falsy (recover d) = true).
Proof.
  split; [|split; [|split]].
  - intros item H. unfold onCompletionResolve. by rewrite H.
  - intros codeLens H. unfold onCodeLensResolve. by rewrite H.
  - intros codeAction H. unfold onCodeActionResolve. by rewrite H.
  - intros d [Hd|(props & -> & Hprops)].
    + by rewrite recover_nothing.
    + by rewrite recover_no_property.
Qed.

(** C8: when the client declared no insert/replace support, the answer
    of [onCompletion] is the language service's list with every
    insert+replace edit turned into the plain edit of its insert range
    and its text; the other items, the other fields of each item and the
    rest of the list are as the language service gave them. *)
Theorem completion_downgrade (vueLs : LanguageService R) (uri : string)
    (position : Position) (context : jsval) (list : CompletionList) :
  client_insertReplaceSupport params = false →
  getLanguageService projects_getProject (JStr uri) = Fulfilled (val vueLs) →
  doComplete vueLs uri position context = Fulfilled (val list) →
  ∃ answer,
    onCompletion projects_getProject params uri position context
    = Fulfilled (val answer)
    ∧ isIncomplete answer = isIncomplete list
    ∧ length (items answer) = length (items list)
    ∧ ∀ i item, items list !! i = Some item →
        ∃ item', items answer !! i = Some item'
          ∧ label item' = label item
          ∧ item_data item' = item_data item
          ∧ item_rest item' = item_rest item
          ∧ match textEdit item with
            | Some (InsertReplaceEdit text insertRange _) =>
                textEdit item'
                = Some (PlainEdit {| range := insertRange; newText := text |})
            | _ => textEdit item' = textEdit item
            end.
Proof.
  intros Hcap Hls Hlist. eexists. split.
  - unfold onCompletion. rewrite (worker_service _ _ _ _ Hls), Hlist. simpl.
    by rewrite Hcap.
  - simpl. split; [done|]. split; [by rewrite length_map|].
    intros i item Hi. exists (downgrade_item item).
    split; [by rewrite list_lookup_fmap, Hi|].
    unfold downgrade_item.
    destruct (textEdit item) as [[e|text ins rep]|] eqn:E; simpl;
      rewrite ?E; by repeat split.
Qed.

(** An absent list and a failure of the language service pass through. *)
Lemma completion_passthrough (vueLs : LanguageService R) (uri : string)
    (position : Position) (context : jsval) :
  getLanguageService projects_getProject (JStr uri) = Fulfilled (val vueLs) →
  (∀ a, doComplete vueLs uri position context ≠ Fulfilled (val a)) →
  onCompletion projects_getProject params uri position context
  = doComplete vueLs uri position context.
Proof.
  intros Hls Hlist. unfold onCompletion. rewrite (worker_service _ _ _ _ Hls).
  destruct (doComplete vueLs uri position context) as [[| |a]|]; try done.
  by destruct (Hlist a).
Qed.

(** With insert/replace support declared, the list is handed through. *)
Lemma completion_supported (vueLs : LanguageService R) (uri : string)
    (position : Position) (context : jsval) :
  client_insertReplaceSupport params = true →
  getLanguageService projects_getProject (JStr uri) = Fulfilled (val vueLs) →
  onCompletion projects_getProject params uri position context
  = doComplete vueLs uri position context.
Proof.
  intros Hcap Hls. unfold onCompletion. rewrite (worker_service _ _ _ _ Hls).
  destruct (doComplete vueLs uri position context) as [[| |a]|]; try done.
  simpl. by rewrite Hcap.
Qed.

(** C10, amended: without a language service the semantic-tokens
    handlers answer the encoding of no tokens and the call-hierarchy
    prepare handler answers the empty list; and when the language
    service prepares no item, the handler answers the empty list as
    well: its callback yields [null], which [?? []] replaces. *)
Theorem empty_answers (uri : string) (position : Position) :
  (getLanguageService projects_getProject (JStr uri) = Fulfilled undefined →
   semanticTokens_on projects_getProject uri = Fulfilled (buildTokens [])
   ∧ (∀ r, semanticTokens_onRange projects_getProject uri r
           = Fulfilled (buildTokens []))
   ∧ callHierarchy_onPrepare projects_getProject uri position = Fulfilled [])
  ∧ (∀ vueLs items,
       getLanguageService projects_getProject (JStr uri) = Fulfilled (val vueLs) →
       callHierarchy_doPrepare vueLs uri position = Fulfilled items →
       items = undefined ∨ items = null ∨ items = val [] →
       onPrepare_callback uri position vueLs = Fulfilled null
       ∧ callHierarchy_onPrepare projects_getProject uri position = Fulfilled []).
Proof.
  split.
  - intros Hno.
    unfold semanticTokens_on, semanticTokens_onRange, semanticTokens_handler,
      callHierarchy_onPrepare.
    split; [|split]; intros; by rewrite worker_no_service.
  - intros vueLs items Hls Hitems Hempty.
    assert (onPrepare_callback uri position vueLs = Fulfilled null) as Hcb.
    { unfold onPrepare_callback. rewrite Hitems.
      by destruct Hempty as [->|[->| ->]]. }
    split; [done|]. unfold callHierarchy_onPrepare.
    by rewrite (worker_service _ _ _ _ Hls), Hcb.
Qed.

End ResolveFacts.

Lemma resolve_without_token_witness :
  onCompletionResolve no_projects no_features (Fulfilled undefined)
    (sample_item (JNum 7))
  = Fulfilled (sample_item (JNum 7)).
Proof.
  apply (resolve_without_token no_projects no_features (Fulfilled undefined)).
  reflexivity.
Defined.

(** C6 as stated fails on a malformed token: an item whose [data] has a
    number under [uri] carries no document identifier, yet the guard lets
    it through, and completion resolve raises on [uri.toLowerCase()],
    with or without a language service. *)
Lemma malformed_token_raises :
  recover (item_data (sample_item (JObj [("uri", JNum 42)]))) = JNum 42
  ∧ onCompletionResolve no_projects no_features (Fulfilled undefined)
      (sample_item (JObj [("uri", JNum 42)]))
    = Rejected "TypeError"
  ∧ onCompletionResolve
      (one_project (sample_service (Fulfilled undefined) (Fulfilled undefined)
                      (Fulfilled undefined) (Fulfilled [])))
      no_features (Fulfilled undefined)
      (sample_item (JObj [("uri", JNum 42)]))
    = Rejected "TypeError".
Proof. by vm_compute. Qed.

Lemma completion_downgrade_witness :
  ∃ answer,
    onCompletion
      (one_project (sample_service (Fulfilled (val sample_completions))
                      (Fulfilled undefined) (Fulfilled undefined) (Fulfilled [])))
      no_capabilities "file:///a.vue" origin JUndefined
    = Fulfilled (val answer)
    ∧ (textEdit <$> items answer)
      = [Some (PlainEdit {| range := sample_range 0 2; newText := "ref" |})].
Proof.
  destruct (completion_downgrade
    (one_project (sample_service (Fulfilled (val sample_completions))
                    (Fulfilled undefined) (Fulfilled undefined) (Fulfilled [])))
    no_capabilities
    (sample_service (Fulfilled (val sample_completions))
       (Fulfilled undefined) (Fulfilled undefined) (Fulfilled []))
    "file:///a.vue" origin JUndefined sample_completions
    eq_refl eq_refl eq_refl) as [answer [Hanswer _]].
  exists answer. split; [exact Hanswer|].
  vm_compute in Hanswer. injection Hanswer as <-. reflexivity.
Defined.

Lemma empty_answers_witness :
  callHierarchy_onPrepare no_projects "file:///a.vue" origin = Fulfilled []
  ∧ callHierarchy_onPrepare
      (one_project (sample_service (Fulfilled undefined) (Fulfilled (val []))
                      (Fulfilled undefined) (Fulfilled [])))
      "file:///a.vue" origin = Fulfilled [].
Proof.
  split.
  - apply (empty_answers no_projects "file:///a.vue" origin). reflexivity.
  - eapply (empty_answers
      (one_project (sample_service (Fulfilled undefined) (Fulfilled (val []))
                      (Fulfilled undefined) (Fulfilled [])))
      "file:///a.vue" origin); [reflexivity|reflexivity|auto].
Defined.

(** C10 as stated fails on its last part: a prepare that succeeds with
    zero items is answered with the empty list, not with [null]. *)
Lemma prepare_zero_items_not_null :
  let vueLs := sample_service (Fulfilled undefined) (Fulfilled (val []))
                 (Fulfilled undefined) (Fulfilled []) in
  getLanguageService (one_project vueLs) (JStr "file:///a.vue")
  = Fulfilled (val vueLs)
  ∧ callHierarchy_doPrepare vueLs "file:///a.vue" origin = Fulfilled (val [])
  ∧ worker (one_project vueLs) (JStr "file:///a.vue")
      (onPrepare_callback "file:///a.vue" origin) = Fulfilled null
  ∧ callHierarchy_onPrepare (one_project vueLs) "file:///a.vue" origin
    = Fulfilled [].
Proof. by vm_compute. Qed.

(** ** Attaching the document identifier *)

Lemma lookup_assign_eq (key : string) (x : jsval) (props : list (string * jsval)) :
  lookup_prop key (assign_prop key x props) = x.
Proof.
  induction props as [|[k v] props IH]; simpl.
  - by rewrite String.eqb_refl.
  - destruct (String.eqb k key) eqn:E; simpl; by rewrite E.
Qed.

Lemma lookup_assign_ne (key key' : string) (x : jsval)
    (props : list (string * jsval)) :
  key' ≠ key →
  lookup_prop key' (assign_prop key x props) = lookup_prop key' props.
Proof.
  intros Hne. induction props as [|[k v] props IH]; simpl.
  - destruct (String.eqb_spec key key'); congruence.
  - destruct (String.eqb_spec k key) as [->|]; simpl.
    + destruct (String.eqb_spec key key'); congruence.
    + by rewrite IH.
Qed.

Lemma lookup_single_eq (key : string) (x : jsval) :
  lookup_prop key [(key, x)] = x.
Proof. apply (lookup_assign_eq key x []). Qed.

Lemma lookup_single_ne (key key' : string) (x : jsval) :
  key' ≠ key → lookup_prop key' [(key, x)] = JUndefined.
Proof. apply (lookup_assign_ne key key' x []). Qed.

Ltac attach_fresh :=
  eexists; split; [reflexivity|];
  cbn [action_data title action_rest hierarchy_data name hierarchy_uri
       recover opt_get_prop jcoalesce];
  rewrite ?lookup_single_eq; repeat split;
  intros; by apply lookup_single_ne.

(** The code-action path: whatever the [data] field held, the attached
    identifier is read back, and the other properties of a [data] object
    are kept. *)
Lemma attach_uri_recover (d : string) (codeAction : CodeAction) :
  ∃ attached,
    attach_uri d codeAction = Fulfilled attached
    ∧ recover (action_data attached) = JStr d
    ∧ title attached = title codeAction
    ∧ action_rest attached = action_rest codeAction
    ∧ ∀ key, key ≠ "uri" →
        opt_get_prop (action_data attached) key
        = opt_get_prop (action_data codeAction) key.
Proof.
  unfold attach_uri.
  destruct (action_data codeAction) as [| |[]|n|s|props] eqn:Hd; simpl.
  1-4: attach_fresh.
  - rewrite andb_false_r. attach_fresh.
  - rewrite andb_false_r. attach_fresh.
  - eexists. split; [reflexivity|]. 
    cbn [action_data title action_rest recover opt_get_prop]. repeat split.
    + apply lookup_assign_eq.
    + intros key Hkey. by apply lookup_assign_ne.
Qed.

(** When the recovered identifier is not the empty string, the resolve
    handlers go on to [worker] with it. *)
Lemma attach_uri_truthy (d : string) (codeAction attached : CodeAction) :
  d ≠ "" → attach_uri d codeAction = Fulfilled attached →
  falsy (recover (action_data attached)) = false.
Proof.
  intros Hd Ha. destruct (attach_uri_recover d codeAction) as (a & Ha' & Hr & _).
  rewrite Ha in Ha'. injection Ha' as <-. rewrite Hr. simpl.
  by destruct (String.eqb_spec d "").
Qed.

(** The call-hierarchy path, for a [data] field other than [null]. *)
Lemma attach_hierarchy_uri_recover (d : string) (item : CallHierarchyItem) :
  hierarchy_data item ≠ JNull →
  ∃ attached,
    attach_hierarchy_uri d item = Fulfilled attached
    ∧ hierarchy_origin attached = JStr d
    ∧ name attached = name item
    ∧ hierarchy_uri attached = hierarchy_uri item
    ∧ ∀ key, key ≠ "__uri" →
        opt_get_prop (hierarchy_data attached) key
        = opt_get_prop (hierarchy_data item) key.
Proof.
  intros Hnull. unfold attach_hierarchy_uri, hierarchy_origin.
  destruct (hierarchy_data item) as [| |b|n|s|props] eqn:Hd; [|done|..]; simpl.
  1-4: attach_fresh.
  eexists. split; [reflexivity|].
  cbn [hierarchy_data name hierarchy_uri opt_get_prop].
  rewrite lookup_assign_eq. repeat split.
  intros key Hkey. by apply lookup_assign_ne.
Qed.

(** C7: the round trip fails in [callHierarchy.onPrepare] on an item
    whose [data] is [null]: [typeof null] is ["object"], the field is not
    replaced by an empty object, and the assignment of [__uri] throws, so
    the handler rejects.  The code-action path tests [data] for
    truthiness first and attaches the identifier to the same item
    data. *)
Theorem hierarchy_attach_null_data :
  let vueLs := sample_service (Fulfilled undefined)
                 (Fulfilled (val [sample_hierarchy_item JNull]))
                 (Fulfilled undefined) (Fulfilled []) in
  attach_hierarchy_uri "file:///a.vue" (sample_hierarchy_item JNull)
  = Rejected "TypeError"
  ∧ callHierarchy_onPrepare (one_project vueLs) "file:///a.vue" origin
    = Rejected "TypeError"
  ∧ attach_uri "file:///a.vue" (sample_action JNull)
    = Fulfilled (sample_action (JObj [("uri", JStr "file:///a.vue")])).
Proof. by vm_compute. Qed.

(** ** Workspace symbols and cancellation *)

Section WorkspaceSymbolFacts.
Context {R : Type}.

Lemma each_project_loop (token : nat → bool) (query : string)
    (projects later : list (outcome (Project R))) (queried : nat)
    (results : list R) :
  (s ← await each_project token query projects queried results;
   match s with
   | Return r => Fulfilled r
   | Continue (queried, results) => symbol_loop token query later queried results
   end)
  = symbol_loop token query (projects ++ later) queried results.
Proof.
  revert queried results.
  induction projects as [|p projects IH]; intros queried results; simpl; [done|].
  destruct (token queried); [done|].
  unfold query_project. destruct p as [p|e]; simpl; [|done].
  destruct (findWorkspaceSymbols (project_getLanguageService p) query); simpl;
    [apply IH|done].
Qed.

Lemma each_workspace_loop (token : nat → bool) (query : string)
    (workspaces : list (Workspace R)) (queried : nat) (results : list R) :
  each_workspace token query workspaces queried results
  = symbol_loop token query (projects_in_order workspaces) queried results.
Proof.
  revert queried results.
  induction workspaces as [|w workspaces IH]; intros queried results; [done|].
  cbn [each_workspace projects_in_order mbind list_bind].
  fold (projects_in_order workspaces).
  set (projects := if (length (workspace_projects w) =? 0)%nat
                   then [getInferredProject w] else workspace_projects w).
  assert (match workspace_projects w with
          | [] => [getInferredProject w]
          | p :: ps => p :: ps
          end = projects) as ->
    by (unfold projects; by destruct (workspace_projects w)).
  rewrite <-each_project_loop.
  destruct (each_project token query projects queried results)
    as [[r|[queried' results']]|e]; simpl; [done|apply IH|done].
Qed.

Lemma symbol_loop_list (token : nat → bool) (query : string)
    (projects : list (outcome (Project R))) (queried : nat)
    (results found : list R) :
  symbol_loop token query projects queried results = Fulfilled (val found) →
  ∀ i, i < length projects → token (queried + i) = false.
Proof.
  revert queried results.
  induction projects as [|p projects IH]; intros queried results; simpl.
  - intros _ i Hi. lia.
  - destruct (token queried) eqn:Htok; [done|].
    destruct (query_project query p) as [more|e]; simpl; [|done].
    intros Hloop [|i] Hi.
    + by rewrite Nat.add_0_r.
    + replace (queried + S i) with (S queried + i) by lia.
      eapply IH; [done|lia].
Qed.

Lemma symbol_loop_cancelled (token : nat → bool) (query : string)
    (projects : list (outcome (Project R))) (queried : nat)
    (results : list R) (i : nat) :
  i < length projects →
  token (queried + i) = true →
  (∀ j p, j < i → projects !! j = Some p →
          ∃ found, query_project query p = Fulfilled found) →
  symbol_loop token query projects queried results = Fulfilled undefined.
Proof.
  revert queried results i.
  induction projects as [|p projects IH]; intros queried results i; simpl.
  - lia.
  - intros Hi Htok Hq. destruct (token queried) eqn:Hnow; [done|].
    destruct i as [|i]; [by rewrite Nat.add_0_r, Hnow in Htok|].
    destruct (Hq 0 p) as [found ->]; [lia|done|]. simpl.
    apply (IH _ _ i); [lia| |].
    + by replace (S queried + i) with (queried + S i) by lia.
    + intros j p' Hj Hp'. apply (Hq (S j)); [lia|done].
Qed.

(** C5: when the token reads cancelled at the check before some query,
    the handler answers no list, neither the whole nor a part of what it
    gathered; when the queries before that check were all answered, it
    answers [undefined]. *)
Theorem workspaceSymbol_cancelled (workspaces : list (Workspace R))
    (query : string) (token : nat → bool) (i : nat) :
  i < length (projects_in_order workspaces) →
  token i = true →
  (∀ found, onWorkspaceSymbol workspaces query token ≠ Fulfilled (val found))
  ∧ ((∀ j p, j < i → projects_in_order workspaces !! j = Some p →
             ∃ found, query_project query p = Fulfilled found) →
     onWorkspaceSymbol workspaces query token = Fulfilled undefined).
Proof.
  intros Hi Htok. unfold onWorkspaceSymbol. rewrite each_workspace_loop. split.
  - intros found Hfound.
    pose proof (symbol_loop_list _ _ _ _ _ _ Hfound i Hi) as Hfalse.
    simpl in Hfalse. congruence.
  - intros Hq. by apply (symbol_loop_cancelled _ _ _ 0 [] i).
Qed.

End WorkspaceSymbolFacts.

Lemma workspaceSymbol_cancelled_witness :
  onWorkspaceSymbol sample_workspaces "x" cancelled_after_first
  = Fulfilled undefined.
Proof.
  apply (workspaceSymbol_cancelled sample_workspaces "x" cancelled_after_first 1).
  - vm_compute. lia.
  - reflexivity.
  - intros j p Hj Hp. destruct j as [|j]; [|lia].
    injection Hp as <-. by eexists.
Defined.

(** Without cancellation the three projects are queried in order. *)
Example workspaceSymbol_in_order :
  onWorkspaceSymbol sample_workspaces "x" (λ _, false)
  = Fulfilled (val [(); (); (); ()]).
Proof. reflexivity. Qed.

(** ** File renames *)

Lemma Promise_all_app {A} (ps qs : list (outcome A)) :
  Promise_all (ps ++ qs)
  = (a ← await Promise_all ps; b ← await Promise_all qs; Fulfilled (a ++ b)).
Proof.
  induction ps as [|[a|e] ps IH]; simpl.
  - by destruct (Promise_all qs).
  - rewrite IH. destruct (Promise_all ps); simpl; [|done].
    by destruct (Promise_all qs).
  - done.
Qed.

Lemma Promise_all_fulfilled {A} (answers : list A) :
  Promise_all (Fulfilled <$> answers) = Fulfilled answers.
Proof.
  induction answers as [|a answers IH]; [done|].
  rewrite fmap_cons. cbn [Promise_all]. by rewrite IH.
Qed.

Lemma Promise_all_rejected {A} (ps : list (outcome A)) (e : string) :
  Rejected e ∈ ps → ∃ e', Promise_all ps = Rejected e'.
Proof.
  induction ps as [|[a|e0] ps IH]; intros Hin.
  - by apply elem_of_nil in Hin.
  - apply elem_of_cons in Hin as [|Hin]; [done|].
    destruct (IH Hin) as [e' He']. exists e'. simpl. by rewrite He'.
  - by exists e0.
Qed.

Section RenameFacts.
Context {R : Type}.
Variable projects_getProject : jsval → outcome (nullable (ProjectEntry R)).
Variable getConfiguration : string → outcome (nullable string).
Variable applyEdit : WorkspaceEdit → outcome bool.
Variable getScriptText : string → option string.
Variable uriToFsPath : string → string.
Variable getDocumentSafely : string → option TextDocument.
Variable mergeWorkspaceEdits : WorkspaceEdit → list WorkspaceEdit → WorkspaceEdit.

Local Abbreviation editsFor := (editsForFile projects_getProject).
Local Abbreviation compute := (renameWorker projects_getProject mergeWorkspaceEdits).
Local Abbreviation resume :=
  (always_resume projects_getProject applyEdit getDocumentSafely
     mergeWorkspaceEdits).

(** A file without a language service asks nothing. *)
Lemma editsForFile_no_service (file : FileRename) :
  getLanguageService projects_getProject (JStr (oldUri file)) = Fulfilled undefined →
  editsFor file = Fulfilled undefined.
Proof. unfold editsForFile. by intros ->. Qed.

(** C3, amended: in compute-and-merge, a file whose language service is
    missing or answers no edit contributes nothing, and the merged edit of
    the others is produced: the first edit, with the later ones merged
    into it; but when the computation for one file fails, [Promise.all]
    rejects and the whole compute-and-merge fails with it. *)
Theorem rename_compute_and_merge :
  (∀ before file after,
     editsFor file = Fulfilled undefined ∨ editsFor file = Fulfilled null →
     compute (before ++ file :: after) = compute (before ++ after))
  ∧ (∀ files answers,
       editsFor <$> files = Fulfilled <$> answers →
       compute files
       = Fulfilled match omap notEmpty answers with
                   | result :: others => val (mergeWorkspaceEdits result others)
                   | [] => null
                   end)
  ∧ (∀ before file after e,
       editsFor file = Rejected e →
       ∃ e', compute (before ++ file :: after) = Rejected e').
Proof.
  split; [|split].
  - intros before file after Hfile. unfold renameWorker.
    rewrite !map_app, !Promise_all_app. simpl.
    destruct (Promise_all (map editsFor before)) as [a|]; simpl; [|done].
    destruct Hfile as [-> | ->];
      (destruct (Promise_all (map editsFor after)) as [b|]; simpl; [|done]);
      by rewrite !omap_app.
  - intros files answers Hanswers. unfold renameWorker.
    change (map editsFor files) with (editsFor <$> files).
    rewrite Hanswers, Promise_all_fulfilled. simpl.
    by destruct (omap notEmpty answers).
  - intros before file after e Hfile. unfold renameWorker.
    destruct (Promise_all_rejected (map editsFor (before ++ file :: after)) e)
      as [e' He'].
    + rewrite <-Hfile. apply list_elem_of_fmap_2, elem_of_app. right. left.
    + exists e'. by rewrite He'.
Qed.

(** *** Retargeting the edit *)

Lemma retarget_no_match (files : list FileRename)
    (td : OptionalVersionedTextDocumentIdentifier) :
  (∀ file, file ∈ files → oldUri file ≠ uri td) →
  retarget getDocumentSafely files td = td.
Proof.
  revert td. induction files as [|file files IH]; intros td Hno; [done|].
  simpl. destruct (String.eqb_spec (uri td) (oldUri file)) as [Heq|_].
  - destruct (Hno file); [left|done].
  - apply IH. intros f Hf. apply Hno. by right.
Qed.

(** In a batch none of whose new identifiers is an old identifier of the
    batch, a text-document edit of a renamed file gets the new identifier
    of the first renaming of that file, with the version of the new
    document when it is retrievable and its own version otherwise; an
    edit of another document stays as it is. *)
Lemma retarget_unchained (files : list FileRename)
    (td : OptionalVersionedTextDocumentIdentifier) :
  (∀ f g, f ∈ files → g ∈ files → newUri f ≠ oldUri g) →
  retarget getDocumentSafely files td
  = match find (λ file, String.eqb (uri td) (oldUri file)) files with
    | Some file =>
        {| uri := newUri file;
           version :=
             match getDocumentSafely (newUri file) with
             | Some doc => val (doc_version doc)
             | None => version td
             end |}
    | None => td
    end.
Proof.
  revert td. induction files as [|file files IH]; intros td Hchain; [done|].
  simpl. destruct (String.eqb_spec (uri td) (oldUri file)) as [Heq|Hne].
  - apply retarget_no_match. intros g Hg. simpl.
    intros Hgf. apply (Hchain file g); [left|by right|done].
  - apply IH. intros f g Hf Hg. apply Hchain; by right.
Qed.

(** Only the identifiers of the text-document edits that the guard
    accepts change: the edits themselves, the entries that the guard
    refuses and the [changes] map are kept. *)
Lemma retarget_edit_shape (files : list FileRename) (edit : WorkspaceEdit) :
  changes (retarget_edit getDocumentSafely files edit) = changes edit
  ∧ ∀ dcs, documentChanges edit = Some dcs →
      ∃ dcs', documentChanges (retarget_edit getDocumentSafely files edit)
              = Some dcs'
        ∧ length dcs' = length dcs
        ∧ (∀ i change, dcs !! i = Some change →
             TextDocumentEdit_is change = false → dcs' !! i = Some change)
        ∧ ∀ i e, dcs !! i = Some (ChangeText e) →
            TextDocumentEdit_is (ChangeText e) = true →
            dcs' !! i
            = Some (ChangeText
                      {| textDocument :=
                           retarget getDocumentSafely files (textDocument e);
                         edits := edits e |}).
Proof.
  unfold retarget_edit. split.
  - by destruct (documentChanges edit).
  - intros dcs ->. eexists. split; [done|]. split; [by rewrite length_map|].
    split.
    + intros i change Hi Hrefused.
      rewrite list_lookup_fmap, Hi. cbn [fmap option_fmap option_map].
      unfold retarget_change. by rewrite Hrefused.
    + intros i e Hi Haccepted.
      rewrite list_lookup_fmap, Hi. cbn [fmap option_fmap option_map].
      unfold retarget_change. by rewrite Haccepted.
Qed.

(** C9, amended: in the ['always'] path the edit handed to apply-edit is
    the merged edit in which the identifier of every text-document edit
    entry that the guard [vscode.TextDocumentEdit.is] accepts (its version
    stamp is [null] or a 32-bit integer) is taken through the files of the
    batch in order: whenever it equals a file's old identifier it becomes
    that file's new identifier, with the version of the new document when
    that document is retrievable and the version it had otherwise.  So
    such an entry on an old identifier of a batch none of whose new
    identifiers is an old identifier of the batch gets the corresponding
    new identifier.  An entry on no old identifier, an entry that the
    guard refuses (one without a version stamp, or a create, rename or
    delete operation), the edits of every entry and the [changes] map stay
    as they were. *)
Theorem rename_edit_retargeted (files : list FileRename) (s : Store)
    (renaming : nat) (edit : WorkspaceEdit) :
  compute files = Fulfilled (val edit) →
  appliedEdits (resume renaming files s)
  = appliedEdits s ++ [retarget_edit getDocumentSafely files edit]
  ∧ changes (retarget_edit getDocumentSafely files edit) = changes edit
  ∧ ∀ dcs, documentChanges edit = Some dcs →
      ∃ dcs',
        documentChanges (retarget_edit getDocumentSafely files edit) = Some dcs'
        ∧ length dcs' = length dcs
        ∧ (∀ i change, dcs !! i = Some change →
             TextDocumentEdit_is change = false → dcs' !! i = Some change)
        ∧ ∀ i e, dcs !! i = Some (ChangeText e) →
            TextDocumentEdit_is (ChangeText e) = true →
            ∃ td,
              dcs' !! i = Some (ChangeText {| textDocument := td; edits := edits e |})
              ∧ td = retarget getDocumentSafely files (textDocument e)
              ∧ ((∀ file, file ∈ files → oldUri file ≠ uri (textDocument e)) →
                 td = textDocument e)
              ∧ ((∀ f g, f ∈ files → g ∈ files → newUri f ≠ oldUri g) →
                 ∀ file,
                   find (λ file, String.eqb (uri (textDocument e)) (oldUri file))
                     files = Some file →
                   uri td = newUri file
                   ∧ version td
                     = match getDocumentSafely (newUri file) with
                       | Some doc => val (doc_version doc)
                       | None => version (textDocument e)
                       end).
Proof.
  intros Hedit. split; [|split].
  - unfold always_resume. by rewrite Hedit.
  - apply retarget_edit_shape.
  - intros dcs Hdcs.
    destruct (proj2 (retarget_edit_shape files edit) dcs Hdcs)
      as (dcs' & Hdcs' & Hlen & Hrefused & Htext).
    exists dcs'. split; [done|]. split; [done|]. split; [done|].
    intros i e Hi Haccepted. eexists. split; [by apply Htext|].
    split; [done|]. split.
    + apply retarget_no_match.
    + intros Hchain file Hfind. rewrite (retarget_unchained _ _ Hchain), Hfind.
      done.
Qed.

(** *** The renaming in flight *)

(** C2, amended: in the ['always'] path the renaming is added to
    [fileRenamings] before the handler answers, and once the rename-edit
    computation of the batch has completed without failing the renaming
    is removed and the saved contents are cleared, whether or not an edit
    resulted and whatever becomes of the apply-edit request, whose promise
    is not awaited: afterwards the set has no entry for the batch. *)
Theorem always_renaming_removed (files : list FileRename) (s : Store)
    (edit : nullable WorkspaceEdit) :
  getConfiguration (updateImports_key files) = Fulfilled (val "always") →
  compute files = Fulfilled edit →
  ∃ started final,
    onWillRenameFiles projects_getProject getConfiguration getScriptText
      uriToFsPath mergeWorkspaceEdits files s
    = (Fulfilled null, started, Some (promises s))
    ∧ (promises s ∈ fileRenamings started)
    ∧ onWillRenameFiles_settled projects_getProject getConfiguration applyEdit
        getScriptText uriToFsPath getDocumentSafely mergeWorkspaceEdits files s
      = (Fulfilled null, final)
    ∧ (promises s ∉ fileRenamings final)
    ∧ renameFileContentCache final = ∅
    ∧ ∀ later,
        (promises s ∉ fileRenamings (resume (promises s) files later))
        ∧ renameFileContentCache (resume (promises s) files later) = ∅.
Proof.
  intros Hconfig Hedit.
  assert (∀ later,
    (promises s ∉ fileRenamings (resume (promises s) files later))
    ∧ renameFileContentCache (resume (promises s) files later) = ∅) as Hresume.
  { intros later. unfold always_resume. rewrite Hedit. simpl.
    split; [|done]. rewrite elem_of_difference, elem_of_singleton. tauto. }
  eexists _, _. unfold onWillRenameFiles_settled, onWillRenameFiles.
  rewrite Hconfig. cbn [always_begin].
  split; [reflexivity|]. split; [cbn; apply elem_of_union_l, elem_of_singleton; reflexivity|].
  split; [reflexivity|]. split; [apply Hresume|]. split; [apply Hresume|done].
Qed.

End RenameFacts.

Lemma rename_compute_and_merge_witness :
  renameWorker sample_registry mergeWorkspaceEdits_model [rename_x_y; rename_m_n]
  = renameWorker sample_registry mergeWorkspaceEdits_model [rename_m_n].
Proof.
  apply (proj1 (rename_compute_and_merge sample_registry
                  mergeWorkspaceEdits_model) [] rename_x_y [rename_m_n]).
  left. reflexivity.
Defined.

(** C3 as stated fails: the computation for [a.ts] fails, the one for
    [m.ts] answers an edit, and the batch of both is rejected where the
    claim has the edit of the remaining one. *)
Lemma failing_engine_aborts_batch :
  editsForFile sample_registry rename_a_b = Rejected "rename failed"
  ∧ renameWorker sample_registry mergeWorkspaceEdits_model [rename_m_n]
    = Fulfilled (val (edit_of "file:///main.ts"))
  ∧ renameWorker sample_registry mergeWorkspaceEdits_model
      [rename_a_b; rename_m_n]
    = Rejected "rename failed".
Proof. by vm_compute. Qed.

Lemma always_renaming_removed_witness :
  ∃ final,
    onWillRenameFiles_settled sample_registry always_update edit_refused
      saved_text id no_documents mergeWorkspaceEdits_model
      [rename_m_n] empty_store
    = (Fulfilled null, final)
    ∧ (0 ∉ fileRenamings final)
    ∧ renameFileContentCache final = ∅.
Proof.
  destruct (always_renaming_removed sample_registry always_update edit_refused
              saved_text id no_documents mergeWorkspaceEdits_model
              [rename_m_n] empty_store (val (edit_of "file:///main.ts"))
              eq_refl eq_refl)
    as (started & final & _ & _ & Hsettled & Hout & Hcache & _).
  exists final. split; [exact Hsettled|]. split; [exact Hout|exact Hcache].
Defined.

(** C2 as stated fails: when the rename computation of a file fails, the
    renaming stays in [fileRenamings] and the saved contents stay in the
    cache after everything that was scheduled has run. *)
Lemma failed_renaming_leaks :
  ∃ final,
    onWillRenameFiles_settled sample_registry always_update edit_applied
      saved_text id no_documents mergeWorkspaceEdits_model
      [rename_a_b; rename_m_n] empty_store
    = (Fulfilled null, final)
    ∧ (0 ∈ fileRenamings final)
    ∧ renameFileContentCache final !! "file:///a.ts" = Some "export {}"
    ∧ appliedEdits final = []
    ∧ unhandledRejections final = ["rename failed"].
Proof.
  eexists. split; [reflexivity|]. cbn.
  split; [apply elem_of_union_l, elem_of_singleton; reflexivity|].
  split; [by vm_compute|]. split; reflexivity.
Qed.

Lemma rename_edit_retargeted_witness :
  appliedEdits
    (always_resume (one_project editing_a) edit_applied b_is_open
       mergeWorkspaceEdits_model 0 [rename_a_b; rename_x_y] empty_store)
  = [retarget_edit b_is_open [rename_a_b; rename_x_y] (edit_of "file:///a.ts")].
Proof.
  apply (rename_edit_retargeted (one_project editing_a) edit_applied b_is_open
           mergeWorkspaceEdits_model [rename_a_b; rename_x_y] empty_store 0
           (edit_of "file:///a.ts")).
  reflexivity.
Defined.

(** C9 as stated fails on a batch whose renamings chain: with [a.ts]
    renamed to [b.ts] and [b.ts] to [c.ts], the edit of [a.ts] is applied
    to [c.ts], since the loop over the files goes on after the first
    match and meets the identifier it has just written; the claim has
    [b.ts], the new identifier that corresponds to [a.ts]. *)
Lemma chained_batch_retargets_twice :
  retarget no_documents [rename_a_b; rename_b_c]
    {| uri := "file:///a.ts"; version := val 3%Z |}
  = {| uri := "file:///c.ts"; version := val 3%Z |}
  ∧ ∃ final,
      onWillRenameFiles_settled (one_project editing_a) always_update edit_applied
        saved_text id no_documents mergeWorkspaceEdits_model
        [rename_a_b; rename_b_c] empty_store
      = (Fulfilled null, final)
      ∧ appliedEdits final = [edit_of "file:///c.ts"].
Proof.
  split; [reflexivity|]. eexists. split; reflexivity.
Qed.

(** An entry of [a.ts] without a version stamp is not one that the guard
    accepts: it is applied as it came, on [a.ts], also when [a.ts] is
    renamed to [b.ts]. *)
Example unversioned_entry_is_kept :
  retarget_edit b_is_open [rename_a_b] unversioned_edit_of_a
  = unversioned_edit_of_a.
Proof. reflexivity. Qed.

(** The same batch without the second renaming is applied to [b.ts],
    at the version of the open document. *)
Example single_rename_retargets :
  ∃ final,
    onWillRenameFiles_settled (one_project editing_a) always_update edit_applied
      saved_text id b_is_open mergeWorkspaceEdits_model
      [rename_a_b] empty_store
    = (Fulfilled null, final)
    ∧ appliedEdits final
      = [ {| changes := None;
             documentChanges :=
               Some [ChangeText
                       {| textDocument :=
                            {| uri := "file:///b.ts"; version := val 1%Z |};
                          edits := [{| range := sample_range 7 11;
                                       newText := "./b" |}] |}] |} ].
Proof. eexists. split; reflexivity. Qed.

(** ** The embedding on sample inputs *)

Example endsWith_ts :
  endsWith "file:///src/a.ts" ".ts" = true
  ∧ endsWith "file:///src/a.tsx" ".ts" = false
  ∧ endsWith "ts" ".ts" = false.
Proof. by vm_compute. Qed.

Example toLowerCase_uri : toLowerCase "File:///C:/App.VUE" = "file:///c:/app.vue".
Proof. reflexivity. Qed.

Example js_array_two :
  js_array [JStr "file:///a.vue"; JStr "kebab"]
  = JObj [("0", JStr "file:///a.vue"); ("1", JStr "kebab"); ("length", JNum 2)].
Proof. reflexivity. Qed.

Example updateImports_key_by_extension :
  updateImports_key [rename_a_b] = "typescript.updateImportsOnFileMove.enabled"
  ∧ updateImports_key
      [{| oldUri := "file:///a.js"; newUri := "file:///b.js" |}]
    = "javascript.updateImportsOnFileMove.enabled".
Proof. by vm_compute. Qed.

(** With the ['prompt'] policy the merged edit is the answer; nothing is
    applied and no renaming is in flight. *)
Example prompt_answers_the_edit :
  onWillRenameFiles (one_project main_service) prompt_update saved_text id
    mergeWorkspaceEdits_model [rename_m_n] empty_store
  = (Fulfilled (val (edit_of "file:///main.ts")), empty_store, None).
Proof. reflexivity. Qed.

(** Two language services answer: the second edit is merged into the
    first, and both lists of document changes are kept, in order. *)
Example two_edits_are_merged :
  ∃ merged,
    renameWorker (one_project main_service) mergeWorkspaceEdits_model
      [rename_m_n; rename_x_y]
    = Fulfilled (val merged)
    ∧ documentChanges merged
      = Some (default [] (documentChanges (edit_of "file:///main.ts"))
              ++ default [] (documentChanges (edit_of "file:///main.ts"))).
Proof. eexists. split; reflexivity. Qed.

(** A completion item resolved without a language service comes back as
    it was sent, with its correlation token. *)
Example resolve_unknown_document :
  onCompletionResolve no_projects no_features (Fulfilled undefined)
    (sample_item (JObj [("uri", JStr "file:///a.vue")]))
  = Fulfilled (sample_item (JObj [("uri", JStr "file:///a.vue")])).
Proof. reflexivity. Qed.

(** * Further properties *)

(** ** The token encoder *)

Lemma decode_delta_from (prev : SemanticToken) (ts : list SemanticToken) :
  decode_from (tok_line prev) (tok_char prev) (delta_from prev ts) = ts.
Proof.
  revert prev. induction ts as [|t ts IH]; intros prev; [done|].
  destruct t as [[[[line char] len] ty] mods].
  cbn [delta_from delta_entry app decode_from].
  replace (tok_line prev + (line - tok_line prev))%Z with line by lia.
  destruct (Z.eqb_spec line (tok_line prev)) as [->|Hne].
  - rewrite Z.sub_diag. cbn [Z.eqb].
    replace (tok_char prev + (char - tok_char prev))%Z with char by lia.
    f_equal. apply (IH (tok_line prev, char, len, ty, mods)).
  - destruct (Z.eqb_spec (line - tok_line prev) 0); [lia|].
    f_equal. apply (IH (line, char, len, ty, mods)).
Qed.

Lemma decode_delta_encode (ts : list SemanticToken) :
  decode_tokens (delta_encode ts) = ts.
Proof.
  destruct ts as [|[[[[line char] len] ty] mods] ts]; [done|].
  unfold decode_tokens. cbn [delta_encode app decode_from].
  rewrite Z.add_0_l. destruct (Z.eqb_spec line 0) as [->|_].
  - rewrite Z.add_0_l. f_equal.
    apply (decode_delta_from (0, char, len, ty, mods)%Z).
  - f_equal. apply (decode_delta_from (line, char, len, ty, mods)).
Qed.

Lemma delta_from_length (prev : SemanticToken) (ts : list SemanticToken) :
  length (delta_from prev ts) = 5 * length ts.
Proof.
  revert prev. induction ts as [|[[[[line char] len] ty] mods] ts IH];
    intros prev; [done|].
  cbn [delta_from delta_entry app length]. rewrite IH. lia.
Qed.

Lemma delta_encode_length (ts : list SemanticToken) :
  length (delta_encode ts) = 5 * length ts.
Proof.
  destruct ts as [|[[[[line char] len] ty] mods] ts]; [done|].
  cbn [delta_encode app length]. rewrite delta_from_length. lia.
Qed.

Lemma buildTokens_data (tokens : list SemanticToken) :
  data (buildTokens tokens) = delta_encode (array_sort compareTokens tokens).
Proof. unfold buildTokens. simpl. apply push_all_encode. Qed.

(** X1: the encoding loses no token: reading the array of [buildTokens]
    back gives the tokens in the order of the sort, which is a
    rearrangement of the tokens given, and the array has five integers
    for each of them. *)
Theorem buildTokens_decode (tokens : list SemanticToken) :
  decode_tokens (data (buildTokens tokens)) = array_sort compareTokens tokens
  ∧ decode_tokens (data (buildTokens tokens)) ≡ₚ tokens
  ∧ Sorted token_le (decode_tokens (data (buildTokens tokens)))
  ∧ length (data (buildTokens tokens)) = 5 * length tokens.
Proof.
  rewrite buildTokens_data, decode_delta_encode.
  split; [done|]. split; [apply array_sort_perm|]. split; [apply sorted_tokens|].
  rewrite delta_encode_length. f_equal.
  apply Permutation_length, array_sort_perm.
Qed.

Lemma delta_from_natural (prev : SemanticToken) (ts : list SemanticToken) :
  Sorted token_le (prev :: ts) → Forall token_natural ts →
  Forall (Z.le 0) (delta_from prev ts).
Proof.
  revert prev. induction ts as [|t ts IH]; intros prev Hs Hn; [constructor|].
  apply Sorted_inv in Hs as [Hs Hhd]. apply HdRel_inv in Hhd.
  apply Forall_cons in Hn as [Ht Hn].
  destruct t as [[[[line char] len] ty] mods].
  cbn [delta_from delta_entry app]. unfold token_le in Hhd. simpl in Hhd.
  destruct Ht as (? & ? & ? & ? & ?).
  repeat apply Forall_cons_2; try done.
  - lia.
  - destruct (Z.eqb_spec line (tok_line prev)); lia.
  - by apply IH.
Qed.

(** X2: when the five numbers of every token are natural numbers, so is
    every integer of the array: after the sort no line delta is negative,
    and no column delta within a line. *)
Theorem buildTokens_natural (tokens : list SemanticToken) :
  Forall token_natural tokens → Forall (Z.le 0) (data (buildTokens tokens)).
Proof.
  intros Hn. rewrite buildTokens_data.
  assert (Forall token_natural (array_sort compareTokens tokens)) as Hn'
    by by rewrite array_sort_perm.
  pose proof (sorted_tokens tokens) as Hs.
  destruct (array_sort compareTokens tokens)
    as [|[[[[line char] len] ty] mods] ts]; [constructor|].
  apply Forall_cons in Hn' as [(? & ? & ? & ? & ?) Hn'].
  cbn [delta_encode app]. repeat apply Forall_cons_2; try done.
  by apply delta_from_natural.
Qed.

Lemma buildTokens_natural_witness :
  Forall (Z.le 0) (data (buildTokens [(2, 1, 4, 7, 0); (0, 3, 1, 2, 1)]%Z)).
Proof.
  apply buildTokens_natural.
  repeat constructor; done.
Defined.

Lemma array_sort_sorted_id {A} (cmp : A → A → Z) (l : list A) :
  Sorted (λ x y, (cmp x y <= 0)%Z) l → array_sort cmp l = l.
Proof.
  induction 1 as [|x l Hl IH Hhd]; [done|].
  cbn [array_sort foldr]. fold (array_sort cmp l). rewrite IH.
  destruct Hhd as [|y l' Hxy]; [done|].
  cbn [sort_insert]. by destruct (Z.leb_spec (cmp x y) 0); [|lia].
Qed.

(** X3: [buildTokens] sorts the array it is given in place; encoding
    that array again, as when a list reported on the progress channel is
    also the final result, gives the same output: an array in the order
    of the sort is left in its order, ties included. *)
Theorem buildTokens_again (tokens : list SemanticToken) :
  array_sort compareTokens (array_sort compareTokens tokens)
  = array_sort compareTokens tokens
  ∧ buildTokens (array_sort compareTokens tokens) = buildTokens tokens.
Proof.
  assert (array_sort compareTokens (array_sort compareTokens tokens)
          = array_sort compareTokens tokens) as Hid.
  { apply array_sort_sorted_id, array_sort_sorted, compareTokens_total. }
  split; [done|]. unfold buildTokens. by rewrite Hid.
Qed.

(** ** Workspace symbols *)

Section WorkspaceSymbolOrder.
Context {R : Type}.

Lemma symbol_loop_all (token : nat → bool) (query : string)
    (projects : list (outcome (Project R))) (answers : list (list R))
    (queried : nat) (results : list R) :
  (∀ i, i < length projects → token (queried + i) = false) →
  Forall2 (λ project found, query_project query project = Fulfilled found)
    projects answers →
  symbol_loop token query projects queried results
  = Fulfilled (val (results ++ concat answers)).
Proof.
  intros Htok Hall. revert queried results Htok.
  induction Hall as [|p found projects answers Hp _ IH];
    intros queried results Htok; simpl.
  - by rewrite app_nil_r.
  - rewrite <-(Nat.add_0_r queried) at 1. rewrite (Htok 0) by (simpl; lia).
    rewrite Hp. simpl. rewrite IH, app_assoc; [done|].
    intros i Hi. replace (S queried + i) with (queried + S i) by lia.
    apply Htok. simpl. lia.
Qed.

Lemma symbol_loop_failed (token : nat → bool) (query : string)
    (projects : list (outcome (Project R))) (queried : nat)
    (results : list R) (i : nat) (failing : outcome (Project R)) (e : string) :
  projects !! i = Some failing →
  query_project query failing = Rejected e →
  (∀ j, (j ≤ i)%nat → token (queried + j) = false) →
  (∀ j p, j < i → projects !! j = Some p →
          ∃ found, query_project query p = Fulfilled found) →
  symbol_loop token query projects queried results = Rejected e.
Proof.
  revert queried results i.
  induction projects as [|p projects IH]; intros queried results i; [done|].
  intros Hi He Htok Hq. simpl.
  rewrite <-(Nat.add_0_r queried) at 1. rewrite (Htok 0) by lia.
  destruct i as [|i].
  - injection Hi as ->. by rewrite He.
  - destruct (Hq 0 p) as [found ->]; [lia|done|]. simpl.
    apply (IH _ _ i); [done|done| |].
    + intros j Hj. replace (S queried + j) with (queried + S j) by lia.
      apply Htok. lia.
    + intros j p' Hj Hp'. apply (Hq (S j)); [lia|done].
Qed.

(** X4: when the token is never read as cancelled and every language
    service answers, the handler answers the symbols of all projects,
    concatenated in the order of the iteration: workspace by workspace,
    the registered projects of a workspace in their order, or its
    inferred project when it has none registered.  Nothing is dropped or
    merged. *)
Theorem workspaceSymbol_concat (workspaces : list (Workspace R))
    (query : string) (token : nat → bool) (answers : list (list R)) :
  (∀ i, i < length (projects_in_order workspaces) → token i = false) →
  Forall2 (λ project found, query_project query project = Fulfilled found)
    (projects_in_order workspaces) answers →
  onWorkspaceSymbol workspaces query token = Fulfilled (val (concat answers)).
Proof.
  intros Htok Hall. unfold onWorkspaceSymbol. rewrite each_workspace_loop.
  by rewrite (symbol_loop_all _ _ _ answers).
Qed.

(** X5: when a project or its language service fails before the token
    is read as cancelled, the handler fails with that reason; what the
    earlier language services answered is not returned. *)
Theorem workspaceSymbol_failure (workspaces : list (Workspace R))
    (query : string) (token : nat → bool) (i : nat)
    (failing : outcome (Project R)) (e : string) :
  projects_in_order workspaces !! i = Some failing →
  query_project query failing = Rejected e →
  (∀ j, (j ≤ i)%nat → token j = false) →
  (∀ j p, j < i → projects_in_order workspaces !! j = Some p →
          ∃ found, query_project query p = Fulfilled found) →
  onWorkspaceSymbol workspaces query token = Rejected e.
Proof.
  intros Hi He Htok Hq. unfold onWorkspaceSymbol. rewrite each_workspace_loop.
  by apply (symbol_loop_failed _ _ _ 0 [] i failing).
Qed.

End WorkspaceSymbolOrder.

Lemma workspaceSymbol_concat_witness :
  onWorkspaceSymbol sample_workspaces "x" (λ _, false)
  = Fulfilled (val (concat [[()]; [(); ()]; [()]])).
Proof.
  apply workspaceSymbol_concat.
  - reflexivity.
  - repeat constructor.
Defined.

Lemma workspaceSymbol_failure_witness :
  onWorkspaceSymbol failing_workspaces "x" (λ _, false) = Rejected "no project".
Proof.
  apply (workspaceSymbol_failure failing_workspaces "x" (λ _, false) 1
           (Rejected "no project") "no project").
  - reflexivity.
  - reflexivity.
  - reflexivity.
  - intros j p Hj Hp. destruct j as [|j]; [|lia].
    injection Hp as <-. by eexists.
Defined.

(** ** File renames *)

Section RenameStoreFacts.
Context {R : Type}.
Variable projects_getProject : jsval → outcome (nullable (ProjectEntry R)).
Variable getConfiguration : string → outcome (nullable string).
Variable applyEdit : WorkspaceEdit → outcome bool.
Variable getScriptText : string → option string.
Variable uriToFsPath : string → string.
Variable getDocumentSafely : string → option TextDocument.
Variable mergeWorkspaceEdits : WorkspaceEdit → list WorkspaceEdit → WorkspaceEdit.

Local Abbreviation save := (saveContents getScriptText uriToFsPath).
Local Abbreviation begin := (always_begin getScriptText uriToFsPath).
Local Abbreviation compute := (renameWorker projects_getProject mergeWorkspaceEdits).
Local Abbreviation resume :=
  (always_resume projects_getProject applyEdit getDocumentSafely
     mergeWorkspaceEdits).

Lemma saveContents_cons (file : FileRename) (files : list FileRename)
    (cache : gmap string string) :
  save (file :: files) cache
  = save files
      match getScriptText (uriToFsPath (oldUri file)) with
      | Some renameFileContent =>
          if String.eqb renameFileContent "" then cache
          else <[oldUri file := renameFileContent]> cache
      | None => cache
      end.
Proof. reflexivity. Qed.

Lemma retarget_cons (file : FileRename) (files : list FileRename)
    (td : OptionalVersionedTextDocumentIdentifier) :
  retarget getDocumentSafely (file :: files) td
  = retarget getDocumentSafely files
      (if String.eqb (uri td) (oldUri file)
       then {| uri := newUri file;
               version :=
                 match getDocumentSafely (newUri file) with
                 | Some doc => val (doc_version doc)
                 | None => version td
                 end |}
       else td).
Proof. reflexivity. Qed.

Lemma saveContents_kept (files : list FileRename) (cache : gmap string string)
    (k : string) :
  k ∉ oldUri <$> files
  ∨ getScriptText (uriToFsPath k) = None
  ∨ getScriptText (uriToFsPath k) = Some "" →
  save files cache !! k = cache !! k.
Proof.
  revert cache. induction files as [|file files IH]; intros cache Hk; [done|].
  rewrite saveContents_cons, IH.
  - destruct (getScriptText (uriToFsPath (oldUri file))) as [text|] eqn:Htext;
      [|done].
    destruct (String.eqb_spec text "") as [->|Hne]; [done|].
    apply lookup_insert_ne. intros <-.
    destruct Hk as [Hk|[Hk|Hk]]; [|congruence..].
    apply Hk. rewrite fmap_cons. left.
  - destruct Hk as [Hk|Hk]; [|by right].
    left. intros Hin. apply Hk. rewrite fmap_cons. by right.
Qed.

Lemma saveContents_saved (files : list FileRename) (cache : gmap string string)
    (k text : string) :
  k ∈ oldUri <$> files → getScriptText (uriToFsPath k) = Some text → text ≠ "" →
  save files cache !! k = Some text.
Proof.
  revert cache. induction files as [|file files IH]; intros cache Hk Htext Hne.
  - by apply elem_of_nil in Hk.
  - rewrite saveContents_cons.
    destruct (decide (k ∈ oldUri <$> files)) as [Hin|Hout]; [by apply IH|].
    rewrite fmap_cons in Hk. apply elem_of_cons in Hk as [->|Hk]; [|done].
    rewrite saveContents_kept by by left.
    rewrite Htext. destruct (String.eqb_spec text ""); [done|].
    apply lookup_insert_eq.
Qed.

(** X6: before its first suspension an ['always'] renaming saves, under
    the old identifier of every file of the batch, the text that is
    retrievable for it; a file whose text is not retrievable, or is the
    empty string, is not saved, and what the cache held for it or for any
    other identifier stays. *)
Theorem contents_saved (files : list FileRename) (s : Store) (k : string) :
  (∀ text,
     k ∈ oldUri <$> files →
     getScriptText (uriToFsPath k) = Some text → text ≠ "" →
     renameFileContentCache (begin files s).2 !! k = Some text)
  ∧ (k ∉ oldUri <$> files
     ∨ getScriptText (uriToFsPath k) = None
     ∨ getScriptText (uriToFsPath k) = Some "" →
     renameFileContentCache (begin files s).2 !! k
     = renameFileContentCache s !! k).
Proof.
  split.
  - intros text. apply saveContents_saved.
  - apply saveContents_kept.
Qed.

(** X7: the renamings of two batches are different promises, and when
    the first batch completes it removes its own renaming only, yet it
    clears the whole cache: the contents saved for the second batch,
    which is still in flight, are gone. *)
Theorem first_batch_clears_second (files1 files2 : list FileRename)
    (s : Store) (edit : nullable WorkspaceEdit) :
  compute files1 = Fulfilled edit →
  let started1 := begin files1 s in
  let started2 := begin files2 started1.2 in
  let completed1 := resume started1.1 files1 started2.2 in
  started1.1 ≠ started2.1
  ∧ (started1.1 ∉ fileRenamings completed1)
  ∧ (started2.1 ∈ fileRenamings completed1)
  ∧ (∀ other, other ≠ started1.1 →
       other ∈ fileRenamings completed1 ↔ other ∈ fileRenamings started2.2)
  ∧ renameFileContentCache completed1 = ∅.
Proof.
  intros Hedit. cbn zeta. unfold always_resume. rewrite Hedit.
  cbn [always_begin fst snd fileRenamings promises].
  assert (∀ e (st : Store),
    fileRenamings match e with
                  | val e => send_applyEdit applyEdit
                               (retarget_edit getDocumentSafely files1 e) st
                  | _ => st
                  end = fileRenamings st) as Hsame by (by intros [| |?] ?).
  cbn [fileRenamings renameFileContentCache]. rewrite Hsame.
  cbn [fileRenamings].
  split; [lia|]. split; [|split; [|split; [|done]]].
  - rewrite elem_of_difference, elem_of_singleton. tauto.
  - rewrite elem_of_difference, !elem_of_union, !elem_of_singleton. split; [tauto|lia].
  - intros other Hother.
    rewrite elem_of_difference, elem_of_singleton. tauto.
Qed.

Ltac split_string s :=
  destruct s as [|[[] [] [] [] [] [] [] []] s]; try done.

(** X8: only the ['always'] policy touches the shared state.  When the
    configuration fetch fails the handler fails; when the policy is
    absent or is any string other than ['always'] and ['prompt'], the
    answer is [null]; with ['prompt'] the answer is the merged edit
    itself.  In all these cases the store is as it was and no renaming is
    left in flight. *)
Theorem policy_gate (files : list FileRename) (s : Store) :
  (∀ e,
     getConfiguration (updateImports_key files) = Rejected e →
     onWillRenameFiles projects_getProject getConfiguration getScriptText
       uriToFsPath mergeWorkspaceEdits files s = (Rejected e, s, None))
  ∧ (∀ config,
       getConfiguration (updateImports_key files) = Fulfilled config →
       config ≠ val "always" → config ≠ val "prompt" →
       onWillRenameFiles projects_getProject getConfiguration getScriptText
         uriToFsPath mergeWorkspaceEdits files s = (Fulfilled null, s, None))
  ∧ (getConfiguration (updateImports_key files) = Fulfilled (val "prompt") →
     onWillRenameFiles projects_getProject getConfiguration getScriptText
       uriToFsPath mergeWorkspaceEdits files s = (compute files, s, None)).
Proof.
  unfold onWillRenameFiles. split; [|split].
  - by intros e ->.
  - intros config -> Ha Hp. destruct config as [| |policy]; [done..|].
    assert (policy ≠ "always") as Ha' by congruence.
    assert (policy ≠ "prompt") as Hp' by congruence.
    clear Ha Hp. do 7 (split_string policy).
  - by intros ->.
Qed.

(** X14: retargeting never invents an identifier or a version: the
    identifier of a text-document edit after the loop is the one it had or
    the new identifier of a file of the batch, and its version is the one
    it had or the version of the retrievable document of such a file. *)
Theorem retarget_within_batch (files : list FileRename)
    (td : OptionalVersionedTextDocumentIdentifier) :
  (uri (retarget getDocumentSafely files td) = uri td
   ∨ ∃ file, file ∈ files
       ∧ uri (retarget getDocumentSafely files td) = newUri file)
  ∧ (version (retarget getDocumentSafely files td) = version td
     ∨ ∃ file doc, file ∈ files
         ∧ getDocumentSafely (newUri file) = Some doc
         ∧ version (retarget getDocumentSafely files td) = val (doc_version doc)).
Proof.
  revert td. induction files as [|file files IH]; intros td; [by split; left|].
  rewrite retarget_cons.
  destruct (String.eqb (uri td) (oldUri file)).
  - match goal with |- context [retarget _ files ?t] => destruct (IH t) as [Hu Hv] end.
    split.
    + right. destruct Hu as [Hu|(f & Hf & Hu)].
      * exists file. split; [left|]. by rewrite Hu.
      * exists f. split; [by right|done].
    + destruct Hv as [Hv|(f & doc & Hf & Hdoc & Hv)].
      * rewrite Hv. cbn [version].
        destruct (getDocumentSafely (newUri file)) as [doc|] eqn:Hdoc; [|by left].
        right. exists file, doc. split; [left|done].
      * right. exists f, doc. split; [by right|done].
  - destruct (IH td) as [Hu Hv]. split.
    + destruct Hu as [Hu|(f & Hf & Hu)]; [by left|].
      right. exists f. split; [by right|done].
    + destruct Hv as [Hv|(f & doc & Hf & Hdoc & Hv)]; [by left|].
      right. exists f, doc. split; [by right|done].
Qed.

End RenameStoreFacts.

Lemma contents_saved_witness :
  renameFileContentCache
    (always_begin saved_text id [rename_a_b; rename_m_n] empty_store).2
    !! "file:///m.ts"
  = Some "export {}".
Proof.
  apply (contents_saved saved_text id [rename_a_b; rename_m_n] empty_store
           "file:///m.ts").
  - apply (bool_decide_unpack _). by vm_compute.
  - reflexivity.
  - done.
Defined.

Lemma first_batch_clears_second_witness :
  renameFileContentCache
    (always_resume sample_registry edit_applied no_documents
       mergeWorkspaceEdits_model 0 [rename_m_n]
       (always_begin saved_text id [rename_x_y]
          (always_begin saved_text id [rename_m_n] empty_store).2).2)
  = ∅.
Proof.
  apply (first_batch_clears_second sample_registry edit_applied saved_text id
           no_documents mergeWorkspaceEdits_model [rename_m_n] [rename_x_y]
           empty_store (val (edit_of "file:///main.ts"))).
  reflexivity.
Defined.

Lemma policy_gate_witness :
  onWillRenameFiles sample_registry never_update saved_text id
    mergeWorkspaceEdits_model [rename_a_b] empty_store
  = (Fulfilled null, empty_store, None).
Proof.
  apply (proj1 (proj2 (policy_gate sample_registry never_update saved_text id
                         mergeWorkspaceEdits_model [rename_a_b] empty_store))
           (val "never")).
  - reflexivity.
  - done.
  - done.
Defined.

(** ** Two-phase requests *)

Lemma for_each_Forall2 {A} (body : A → outcome A) (P : A → A → Prop)
    (l : list A) :
  (∀ x, x ∈ l → ∃ x', body x = Fulfilled x' ∧ P x x') →
  ∃ l', for_each body l = Fulfilled l' ∧ Forall2 P l l'.
Proof.
  induction l as [|x l IH]; intros Hbody.
  - exists []. by split.
  - destruct (Hbody x) as (x' & Hx & HP); [left|].
    destruct IH as (l' & Hl & HPl); [intros y Hy; apply Hbody; by right|].
    exists (x' :: l'). simpl. rewrite Hx, Hl. simpl. split; [done|].
    by constructor.
Qed.

Section TwoPhaseFacts.
Context {R : Type}.
Variable projects_getProject : jsval → outcome (nullable (ProjectEntry R)).
Variable features : LanguageFeatures.
Variable params : InitializeParams.
Variable sendRequest_GetEditorSelection : outcome (nullable EditorSelection).

Lemma onCodeAction_attached (vueLs : LanguageService R) (target : string)
    (r : Range) (context : jsval) (answer : nullable (list CodeAction)) :
  getLanguageService projects_getProject (JStr target) = Fulfilled (val vueLs) →
  doCodeActions vueLs target r context = Fulfilled answer →
  ∃ actions,
    onCodeAction projects_getProject target r context = Fulfilled (val actions)
    ∧ Forall2 (uri_attached target) (coalesce answer []) actions.
Proof.
  intros Hls Hanswer.
  destruct (for_each_Forall2 (attach_uri target) (uri_attached target)
              (coalesce answer [])) as (actions & Hactions & Hall).
  { intros a _. apply attach_uri_recover. }
  exists actions. split; [|done].
  unfold onCodeAction. rewrite (worker_service _ _ _ _ Hls), Hanswer. simpl.
  by rewrite Hactions.
Qed.

(** X9: with a language service, [onCodeAction] never answers absent: it
    answers as many code actions as the language service gave, in their
    order (none when the language service gave no list), each with the
    request's document identifier under [uri] in its [data]; the title,
    the other fields and the other properties of [data] are kept. *)
Theorem codeActions_tagged (vueLs : LanguageService R) (target : string)
    (r : Range) (context : jsval) (answer : nullable (list CodeAction)) :
  getLanguageService projects_getProject (JStr target) = Fulfilled (val vueLs) →
  doCodeActions vueLs target r context = Fulfilled answer →
  ∃ actions,
    onCodeAction projects_getProject target r context = Fulfilled (val actions)
    ∧ length actions = length (coalesce answer [])
    ∧ ∀ i given, coalesce answer [] !! i = Some given →
        ∃ attached, actions !! i = Some attached
          ∧ uri_attached target given attached.
Proof.
  intros Hls Hanswer.
  destruct (onCodeAction_attached _ _ _ _ _ Hls Hanswer)
    as (actions & Hactions & Hall).
  exists actions. split; [done|]. split.
  - symmetry. by eapply Forall2_length.
  - intros i given Hi.
    destruct (Forall2_lookup_l _ _ _ _ _ Hall Hi) as (attached & ? & ?).
    by exists attached.
Qed.

(** X10: a code action that [onCodeAction] answered for a document is
    resolved by the language service of that document: the resolve
    handler recovers the identifier the first handler attached, and
    answers what the language service resolves, or the action itself when
    the language service resolves nothing. *)
Theorem codeAction_resolved_by_origin (vueLs : LanguageService R)
    (target : string) (r : Range) (context : jsval)
    (actions : list CodeAction) (attached : CodeAction) :
  target ≠ "" →
  getLanguageService projects_getProject (JStr target) = Fulfilled (val vueLs) →
  onCodeAction projects_getProject target r context = Fulfilled (val actions) →
  attached ∈ actions →
  onCodeActionResolve projects_getProject attached
  = (resolved ← await doCodeActionResolve vueLs attached;
     Fulfilled (coalesce resolved attached)).
Proof.
  intros Hne Hls Hactions Hin.
  assert (recover (action_data attached) = JStr target) as Hrecover.
  { destruct (doCodeActions vueLs target r context) as [answer|e] eqn:Hanswer.
    - destruct (onCodeAction_attached _ _ _ _ _ Hls Hanswer)
        as (actions' & Hactions' & Hall).
      rewrite Hactions in Hactions'. injection Hactions' as <-.
      apply list_elem_of_lookup in Hin as [i Hi].
      destruct (Forall2_lookup_r _ _ _ _ _ Hall Hi) as (given & _ & Hgiven).
      apply Hgiven.
    - unfold onCodeAction in Hactions.
      by rewrite (worker_service _ _ _ _ Hls), Hanswer in Hactions. }
  unfold onCodeActionResolve. rewrite Hrecover.
  cbn [falsy]. destruct (String.eqb_spec target ""); [done|].
  by rewrite (worker_service _ _ _ _ Hls).
Qed.

Lemma onPrepare_attached (vueLs : LanguageService R) (target : string)
    (position : Position) (items : list CallHierarchyItem) :
  getLanguageService projects_getProject (JStr target) = Fulfilled (val vueLs) →
  callHierarchy_doPrepare vueLs target position = Fulfilled (val items) →
  Forall (λ item, hierarchy_data item ≠ JNull) items →
  ∃ prepared,
    callHierarchy_onPrepare projects_getProject target position
    = Fulfilled prepared
    ∧ Forall2 (origin_attached target) items prepared.
Proof.
  intros Hls Hitems Hnull.
  destruct (for_each_Forall2 (attach_hierarchy_uri target)
              (origin_attached target) items) as (prepared & Hprepared & Hall).
  { intros item Hitem. apply attach_hierarchy_uri_recover.
    by apply (proj1 (Forall_forall _ _) Hnull). }
  exists prepared. split; [|done].
  unfold callHierarchy_onPrepare, onPrepare_callback.
  rewrite (worker_service _ _ _ _ Hls), Hitems. simpl. rewrite Hprepared.
  simpl. by destruct prepared.
Qed.

(** X11: the items that [callHierarchy.onPrepare] answers, when none of
    them came with a [null] data field, are the language service's items
    in their order, each tagged with the request's document; and the
    incoming and outgoing calls of such an item are asked of the language
    service of that document, whatever the item's own [uri] is. *)
Theorem hierarchy_calls_by_origin (vueLs : LanguageService R) (target : string)
    (position : Position) (items : list CallHierarchyItem) :
  getLanguageService projects_getProject (JStr target) = Fulfilled (val vueLs) →
  callHierarchy_doPrepare vueLs target position = Fulfilled (val items) →
  Forall (λ item, hierarchy_data item ≠ JNull) items →
  ∃ prepared,
    callHierarchy_onPrepare projects_getProject target position
    = Fulfilled prepared
    ∧ Forall2 (origin_attached target) items prepared
    ∧ ∀ item, item ∈ prepared →
        callHierarchy_onIncomingCalls projects_getProject item
        = (calls ← await callHierarchy_getIncomingCalls vueLs item;
           Fulfilled (coalesce calls []))
        ∧ callHierarchy_onOutgoingCalls projects_getProject item
          = (calls ← await callHierarchy_getOutgoingCalls vueLs item;
             Fulfilled (coalesce calls [])).
Proof.
  intros Hls Hitems Hnull.
  destruct (onPrepare_attached _ _ _ _ Hls Hitems Hnull)
    as (prepared & Hprepared & Hall).
  exists prepared. split; [done|]. split; [done|].
  intros item Hin. apply list_elem_of_lookup in Hin as [i Hi].
  destruct (Forall2_lookup_r _ _ _ _ _ Hall Hi) as (given & _ & Horigin & _).
  unfold callHierarchy_onIncomingCalls, callHierarchy_onOutgoingCalls.
  by rewrite Horigin, !(worker_service _ _ _ _ Hls).
Qed.

Lemma lookup_prop_absent (key : string) (props : list (string * jsval)) :
  key ∉ props.*1 → lookup_prop key props = JUndefined.
Proof.
  induction props as [|[k v] props IH]; [done|].
  simpl. intros Hk. apply not_elem_of_cons in Hk as [Hk Hks].
  destruct (String.eqb_spec k key); [congruence|]. by apply IH.
Qed.

(** X12: an item that carries no [__uri] (its data field is absent,
    [null] or a primitive, or an object without that property or with a
    [null] one) is routed by its own [uri]: its incoming and outgoing
    calls are asked of the language service of that document, and an
    absent answer becomes the empty list. *)
Theorem hierarchy_calls_by_item_uri (vueLs : LanguageService R)
    (item : CallHierarchyItem) :
  (∀ props, hierarchy_data item ≠ JObj props)
  ∨ (∃ props, hierarchy_data item = JObj props
       ∧ ("__uri" ∉ props.*1 ∨ lookup_prop "__uri" props = JNull)) →
  getLanguageService projects_getProject (JStr (hierarchy_uri item))
  = Fulfilled (val vueLs) →
  hierarchy_origin item = JStr (hierarchy_uri item)
  ∧ callHierarchy_onIncomingCalls projects_getProject item
    = (calls ← await callHierarchy_getIncomingCalls vueLs item;
       Fulfilled (coalesce calls []))
  ∧ callHierarchy_onOutgoingCalls projects_getProject item
    = (calls ← await callHierarchy_getOutgoingCalls vueLs item;
       Fulfilled (coalesce calls [])).
Proof.
  intros Hdata Hls.
  assert (hierarchy_origin item = JStr (hierarchy_uri item)) as Horigin.
  { unfold hierarchy_origin.
    destruct Hdata as [Hd|(props & -> & [Hk|Hk])].
    - destruct (hierarchy_data item) as [| | | | |props]; try done.
      by destruct (Hd props).
    - cbn [opt_get_prop]. by rewrite lookup_prop_absent.
    - cbn [opt_get_prop]. by rewrite Hk. }
  split; [done|].
  unfold callHierarchy_onIncomingCalls, callHierarchy_onOutgoingCalls.
  by rewrite Horigin, !(worker_service _ _ _ _ Hls).
Qed.

(** ** Completion *)

(** X13: completion resolve with a language service never answers
    absent, and the position it hands on is the editor's selection only
    when the feature is on and the selection is in the item's document,
    letter case apart.  With the feature off the client is not asked:
    whatever the request would answer, also a failure, changes nothing.
    With the feature on a failed request fails the handler. *)
Theorem completionResolve_position (vueLs : LanguageService R) (target : string)
    (item : CompletionItem) :
  target ≠ "" →
  recover (item_data item) = JStr target →
  getLanguageService projects_getProject (JStr target) = Fulfilled (val vueLs) →
  let resolve_at position :=
    (resolved ← await doCompletionResolve vueLs item position;
     Fulfilled (coalesce resolved item)) in
  (features_completion features ≫= getDocumentSelectionRequest ≠ Some true →
   onCompletionResolve projects_getProject features
     sendRequest_GetEditorSelection item = resolve_at undefined)
  ∧ (features_completion features ≫= getDocumentSelectionRequest = Some true →
     match sendRequest_GetEditorSelection with
     | Rejected e =>
         onCompletionResolve projects_getProject features
           sendRequest_GetEditorSelection item = Rejected e
     | Fulfilled (val selection) =>
         onCompletionResolve projects_getProject features
           sendRequest_GetEditorSelection item
         = resolve_at
             (if String.eqb (toLowerCase (selection_uri selection))
                   (toLowerCase target)
              then val (selection_position selection)
              else undefined)
     | Fulfilled _ =>
         onCompletionResolve projects_getProject features
           sendRequest_GetEditorSelection item = resolve_at undefined
     end).
Proof.
  intros Hne Hrecover Hls. cbn zeta.
  assert (falsy (JStr target) = false) as Hfalsy
    by (cbn [falsy]; by destruct (String.eqb_spec target "")).
  unfold onCompletionResolve, activeSelection. rewrite Hrecover, Hfalsy.
  assert (∀ position,
    (resolved ← await worker projects_getProject (JStr target)
        (λ vueLs0,
           r ← await doCompletionResolve vueLs0 item position;
           Fulfilled (val (coalesce r item)));
     Fulfilled (coalesce resolved item))
    = (resolved ← await doCompletionResolve vueLs item position;
       Fulfilled (coalesce resolved item))) as Hworker.
  { intros position. rewrite (worker_service _ _ _ _ Hls).
    by destruct (doCompletionResolve vueLs item position) as [[| |?]|]. }
  split.
  - intros Hoff.
    destruct (features_completion features) as [[[[]|]]|]; try done;
      cbn [await js_toLowerCase]; apply Hworker.
  - intros Hon.
    destruct (features_completion features) as [[[[]|]]|]; try done.
    destruct sendRequest_GetEditorSelection as [[| |selection]|e];
      cbn [await js_toLowerCase]; try done; by rewrite Hworker.
Qed.

(** X15: [onCompletion] leaves the language service's answer as it is
    when the client declared insert/replace support, and also, whatever
    the client declared, when the answer is no list or a failure. *)
Theorem completion_untouched (vueLs : LanguageService R) (target : string)
    (position : Position) (context : jsval) :
  getLanguageService projects_getProject (JStr target) = Fulfilled (val vueLs) →
  client_insertReplaceSupport params = true
  ∨ (∀ list, doComplete vueLs target position context ≠ Fulfilled (val list)) →
  onCompletion projects_getProject params target position context
  = doComplete vueLs target position context.
Proof.
  intros Hls [Hcap|Hlist]; unfold onCompletion;
    rewrite (worker_service _ _ _ _ Hls);
    destruct (doComplete vueLs target position context) as [[| |list]|];
    try done.
  - simpl. by rewrite Hcap.
  - by destruct (Hlist list).
Qed.

End TwoPhaseFacts.

Lemma codeActions_tagged_witness :
  ∃ actions,
    onCodeAction (one_project (action_service (val [sample_fix])))
      "file:///a.vue" (sample_range 0 1) JUndefined
    = Fulfilled (val actions)
    ∧ length actions = 1.
Proof.
  destruct (codeActions_tagged
              (one_project (action_service (val [sample_fix])))
              (action_service (val [sample_fix])) "file:///a.vue"
              (sample_range 0 1) JUndefined (val [sample_fix])
              eq_refl eq_refl) as (actions & Hactions & Hlength & _).
  exists actions. split; [exact Hactions|exact Hlength].
Defined.

Lemma codeAction_resolved_by_origin_witness :
  onCodeActionResolve (one_project (action_service (val [sample_fix])))
    sample_fix_tagged
  = Fulfilled sample_fix_tagged.
Proof.
  apply (codeAction_resolved_by_origin
           (one_project (action_service (val [sample_fix])))
           (action_service (val [sample_fix])) "file:///a.vue"
           (sample_range 0 1) JUndefined [sample_fix_tagged]).
  - done.
  - reflexivity.
  - reflexivity.
  - left.
Defined.

Lemma hierarchy_calls_by_origin_witness :
  ∃ prepared,
    callHierarchy_onPrepare (one_project hierarchy_service) "file:///a.vue" origin
    = Fulfilled prepared
    ∧ length prepared = 1.
Proof.
  destruct (hierarchy_calls_by_origin (one_project hierarchy_service)
              hierarchy_service "file:///a.vue" origin _ eq_refl eq_refl)
    as (prepared & Hprepared & Hall & _).
  - repeat constructor. done.
  - exists prepared. split; [exact Hprepared|].
    symmetry. exact (Forall2_length _ _ _ Hall).
Defined.

Lemma hierarchy_calls_by_item_uri_witness :
  callHierarchy_onIncomingCalls (one_project silent_service)
    (sample_hierarchy_item (JNum 3))
  = Fulfilled [].
Proof.
  apply (hierarchy_calls_by_item_uri (one_project silent_service) silent_service
           (sample_hierarchy_item (JNum 3))).
  - left. done.
  - reflexivity.
Defined.

Lemma completionResolve_position_witness :
  onCompletionResolve (one_project silent_service) no_features
    (Rejected "no editor") (sample_item (JObj [("uri", JStr "file:///a.vue")]))
  = Fulfilled (sample_item (JObj [("uri", JStr "file:///a.vue")])).
Proof.
  apply (completionResolve_position (one_project silent_service) no_features
           (Rejected "no editor") silent_service "file:///a.vue"
           (sample_item (JObj [("uri", JStr "file:///a.vue")]))).
  - done.
  - reflexivity.
  - reflexivity.
  - done.
Defined.

Lemma completion_untouched_witness :
  onCompletion (one_project silent_service) no_capabilities "file:///a.vue"
    origin JUndefined
  = Fulfilled undefined.
Proof.
  apply (completion_untouched (one_project silent_service) no_capabilities
           silent_service "file:///a.vue" origin JUndefined).
  - reflexivity.
  - right. done.
Defined.

(** ** The configuration key of a rename batch *)

Lemma append_cons (x : ascii) (s t : string) :
  String x s +:+ t = String x (s +:+ t).
Proof. reflexivity. Qed.

Lemma append_empty_r (s : string) : s +:+ "" = s.
Proof. induction s as [|a s IH]; [done|]. by rewrite append_cons, IH. Qed.

Lemma append_assoc (a b c : string) : (a +:+ b) +:+ c = a +:+ (b +:+ c).
Proof. induction a as [|x a IH]; [done|]. by rewrite !append_cons, IH. Qed.

Lemma rev_app_append (s acc : string) :
  String.rev_app s acc = String.rev s +:+ acc.
Proof.
  unfold String.rev. revert acc.
  induction s as [|a s IH]; intros acc; [done|].
  cbn [String.rev_app]. rewrite (IH (String a acc)), (IH (String a "")).
  by rewrite append_assoc.
Qed.

Lemma rev_cons (x : ascii) (s : string) :
  String.rev (String x s) = String.rev s +:+ String x "".
Proof. unfold String.rev at 1. cbn [String.rev_app]. apply rev_app_append. Qed.

Lemma rev_append (a b : string) :
  String.rev (a +:+ b) = String.rev b +:+ String.rev a.
Proof.
  induction a as [|x a IH].
  - change ("" +:+ b) with b. change (String.rev "") with "".
    by rewrite append_empty_r.
  - by rewrite append_cons, !rev_cons, IH, append_assoc.
Qed.

Lemma rev_rev (s : string) : String.rev (String.rev s) = s.
Proof.
  induction s as [|a s IH]; [done|].
  by rewrite rev_cons, rev_append, IH.
Qed.

Lemma prefix_append (a b : string) :
  String.prefix a b = true ↔ ∃ c, b = a +:+ c.
Proof.
  revert b. induction a as [|x a IH]; intros [|y b]; cbn [String.prefix].
  - split; [by exists ""|done].
  - split; [by exists (String y b)|done].
  - split; [done|]. by intros [c ?].
  - destruct (ascii_dec x y) as [->|Hne].
    + rewrite IH. split; intros [c Hc]; exists c.
      * by rewrite append_cons, Hc.
      * rewrite append_cons in Hc. congruence.
    + split; [done|]. intros [c Hc]. rewrite append_cons in Hc. congruence.
Qed.

Lemma endsWith_suffix (s suffix : string) :
  endsWith s suffix = true ↔ ∃ stem, s = stem +:+ suffix.
Proof.
  unfold endsWith. rewrite prefix_append. split.
  - intros [c Hc]. exists (String.rev c).
    rewrite <-(rev_rev s), Hc, rev_append. by rewrite rev_rev.
  - intros [stem ->]. exists (String.rev stem). apply rev_append.
Qed.

(** A new identifier that names a typed source: a Vue, TypeScript or TSX
    file. *)
Lemma hasTsFile_typed (files : list FileRename) :
  hasTsFile files = true ↔ ∃ file, file ∈ files ∧ typed_source (newUri file).
Proof.
  unfold hasTsFile. rewrite existsb_exists. unfold typed_source.
  setoid_rewrite <-list_elem_of_In.
  setoid_rewrite orb_true_iff. setoid_rewrite orb_true_iff.
  setoid_rewrite endsWith_suffix.
  split; intros (file & Hin & H); exists file; (split; [done|]); tauto.
Qed.

(** X16: the configuration key of a batch is decided by the new names
    alone: it is the TypeScript key exactly when the new identifier of
    some file ends in [.vue], [.ts] or [.tsx], and the JavaScript key
    otherwise, whatever the old identifiers are. *)
Theorem policy_key_by_new_names (files : list FileRename) :
  ((∃ file, file ∈ files ∧ typed_source (newUri file)) →
   updateImports_key files = "typescript.updateImportsOnFileMove.enabled")
  ∧ ((∀ file, file ∈ files → ¬ typed_source (newUri file)) →
     updateImports_key files = "javascript.updateImportsOnFileMove.enabled")
  ∧ (∀ others,
       newUri <$> others = newUri <$> files →
       updateImports_key others = updateImports_key files).
Proof.
  unfold updateImports_key. split; [|split].
  - intros Htyped. apply hasTsFile_typed in Htyped. by rewrite Htyped.
  - intros Hnone. destruct (hasTsFile files) eqn:Hts; [|done].
    apply hasTsFile_typed in Hts as (file & Hin & Htyped).
    by destruct (Hnone file Hin).
  - intros others Hsame.
    assert (hasTsFile others = hasTsFile files) as ->; [|done].
    apply eq_true_iff_eq. rewrite !hasTsFile_typed.
    split; intros (file & Hin & Htyped).
    + apply (list_elem_of_fmap_2 newUri) in Hin. rewrite Hsame in Hin.
      apply list_elem_of_fmap in Hin as (file' & Heq & Hin').
      exists file'. split; [done|]. by rewrite <-Heq.
    + apply (list_elem_of_fmap_2 newUri) in Hin. rewrite <-Hsame in Hin.
      apply list_elem_of_fmap in Hin as (file' & Heq & Hin').
      exists file'. split; [done|]. by rewrite <-Heq.
Qed.

Lemma policy_key_by_new_names_witness :
  updateImports_key [{| oldUri := "file:///a.js"; newUri := "file:///a.ts" |}]
  = "typescript.updateImportsOnFileMove.enabled".
Proof.
  apply policy_key_by_new_names.
  eexists. split; [left|]. right. left. by exists "file:///a".
Defined.

(** ** Commands *)

Section CommandFacts.
Context {R : Type}.
Variable projects_getProject : jsval → outcome (nullable (ProjectEntry R)).
Variable executePluginCommand convertTagNameCasingCommand : string.

Local Abbreviation execute :=
  (onExecuteCommand projects_getProject executePluginCommand
     convertTagNameCasingCommand).

(** X17: a command without arguments, and a command that is neither the
    plugin command nor the tag-name-casing command, is answered
    [undefined] without any project being looked up.  The plugin command
    goes, with its arguments as they are, to the language service of its
    first argument; the tag-name-casing command goes to the language
    service of its first argument as a plugin command whose third argument
    is the casing command built from the first two. *)
Theorem executeCommand_routing :
  (∀ command arguments,
     arguments = undefined ∨ arguments = null
     ∨ (command ≠ executePluginCommand
        ∧ command ≠ "volar.server.convertTagNameCasing") →
     execute command arguments = Fulfilled undefined)
  ∧ (∀ args vueLs,
       getLanguageService projects_getProject (nth 0 args JUndefined)
       = Fulfilled (val vueLs) →
       execute executePluginCommand (val args)
       = doExecuteCommand vueLs executePluginCommand args)
  ∧ (∀ args vueLs,
       executePluginCommand ≠ "volar.server.convertTagNameCasing" →
       getLanguageService projects_getProject (nth 0 args JUndefined)
       = Fulfilled (val vueLs) →
       execute "volar.server.convertTagNameCasing" (val args)
       = doExecuteCommand vueLs executePluginCommand
           [ nth 0 args JUndefined;
             JUndefined;
             JObj [("title", JStr "");
                   ("command", JStr convertTagNameCasingCommand);
                   ("arguments",
                    js_array [nth 0 args JUndefined; nth 1 args JUndefined])] ]).
Proof.
  unfold onExecuteCommand. split; [|split].
  - intros command arguments Hcase.
    destruct (String.eqb_spec command executePluginCommand) as [Hp|Hp];
      [|destruct (String.eqb_spec command "volar.server.convertTagNameCasing")
          as [Hc|Hc]];
      destruct Hcase as [->|[->|[Hp' Hc']]]; done.
  - intros args vueLs Hls. rewrite String.eqb_refl.
    by rewrite (worker_service _ _ _ _ Hls).
  - intros args vueLs Hne Hls.
    destruct (String.eqb_spec "volar.server.convertTagNameCasing"
                executePluginCommand) as [Heq|_]; [by destruct Hne|].
    rewrite String.eqb_refl. by rewrite (worker_service _ _ _ _ Hls).
Qed.

End CommandFacts.

Lemma executeCommand_routing_witness :
  onExecuteCommand (one_project silent_service) "volar.executePlugin"
    "convertTagNameCasing" "volar.restart" (val [JStr "file:///a.vue"])
  = Fulfilled undefined.
Proof.
  apply (executeCommand_routing (one_project silent_service)
           "volar.executePlugin" "convertTagNameCasing").
  right. right. done.
Defined.
